(** * MyLoadTest datapool: counters, maps and queues over SQLite

    A shallow embedding of the three Express routers that hold the
    datapool's primitives ([routes/counter.js], [routes/map.js] and
    [routes/queue.js]) and the properties of them that the
    specification states, and of the router that makes up persons
    ([routes/person.js]).  [routes/code.js] is left out: what it does is
    what the file system, ESLint, [require] and the uploaded code do.

    Every route handler is a function from the request's parameters and
    the database file it works on to the HTTP response and the database
    it leaves behind.  Each SQL statement a handler runs is one
    definition, named after what the statement says.

    What is modelled of SQLite is what the statements of the routes need:
    - a table with a primary key is a finite map from the key to the rest
      of the row ([counters]: name to value, [maps]: name to value text,
      a queue table: position to item text);
    - [queues.sqlite] maps each table name recorded in [sqlite_master] to
      its table.  [dbTableExists] binds the name and finds a table under
      the exact name it was created with; [CREATE TABLE] and [INSERT INTO]
      of enqueue splice the name in, where SQLite reads it as an
      identifier: without regard to the case of its letters, and not at
      all when it starts with a digit or is a word that SQLite reserves
      ([SqlKeywords]).  The routes that read or drop a queue splice the
      name only after [dbTableExists] has found the table, and are
      modelled on the tables that enqueue can create: what they do on a
      table whose name is no identifier, which only a statement from
      outside the routes can have created, is out of reach of the model;
    - an [INTEGER PRIMARY KEY] column that an [INSERT] leaves out receives
      one more than the largest key in the table, or 1 in an empty table
      (the rowid rule for a table declared without [AUTOINCREMENT]);
    - a stored integer is a mathematical integer: the 64-bit range of
      the engine is out of reach of the model, as are I/O faults and lock
      contention between connections.  An integer that a route reads into
      JavaScript becomes a double ([to_double]), and the number bound to
      [LIMIT ?] has to fit the 64 bits.

    What the routes take from outside the repository is a parameter of the
    development: [JSON.stringify] and [JSON.parse] ([JsonCodec]), the
    emptiness check of express-validator ([BodyValidator]) and the words
    that SQLite reserves ([SqlKeywords]); what the
    person route draws from [Math.random] and faker is an argument of the
    route.  The routes are run on an instance of each. *)

From Stdlib Require Import ZArith Ascii String List Lia.
From stdpp Require Import base tactics option list strings pretty sorting fin_maps gmap.

Set Warnings "-register-all".

Local Open Scope string_scope.
Local Open Scope list_scope.
Local Open Scope Z_scope.

(** ** JSON values *)

(** A request body after [express.json({ strict: false })], an array
    element, a stored payload, a response body.  Numbers are the integral
    ones. *)
Inductive json : Type :=
  | JNull
  | JBool (b : bool)
  | JNumber (n : Z)
  | JString (s : string)
  | JArray (a : list json)
  | JObject (o : list (string * json)).

(** ** JavaScript numbers *)

(** The number that an integer column of SQLite becomes in JavaScript:
    the double nearest to the integer, and of two that are as near the one
    with the even significand.  The integers of magnitude up to [2 ^ 53]
    are doubles themselves. *)
Definition to_double (n : Z) : Z :=
  let magnitude := Z.abs n in
  let e := Z.log2 magnitude - 52 in          (* the bits that do not fit *)
  if e <=? 0 then n else
  let q := magnitude / 2 ^ e in
  let r := magnitude mod 2 ^ e in
  let half := 2 ^ (e - 1) in
  let q' := if r <? half then q
            else if half <? r then q + 1
            else if Z.even q then q else q + 1 in
  Z.sgn n * (q' * 2 ^ e).

(** [JSON.stringify] and [JSON.parse] belong to the JavaScript runtime, so
    the routes are stated over any pair of them.  [JSON_parse] answers
    [None] where [JSON.parse] throws a [SyntaxError]. *)
Class JsonCodec : Type := {
  JSON_stringify : json -> string;
  JSON_parse : string -> option json
}.

(** A value survives storage when its text is not empty (both tables
    declare [CHECK(... <> '')]) and parses back to the value. *)
Definition serializable `{JsonCodec} (v : json) : Prop :=
  JSON_stringify v <> "" /\ JSON_parse (JSON_stringify v) = Some v.

(** ** HTTP responses *)

Inductive response : Type :=
  | res_json (status : Z) (body : json)
      (* res.status(status).json(body); res.json(body) has status 200 *)
  | res_end (status : Z)
      (* res.status(status).end() *)
  | res_errors (errors : list string)
      (* res.status(400).json({ errors: errors.array() }), by message *)
  | next_err
      (* next(err): the error handler of app.js *)
  | uncaught_exception.
      (* an exception thrown inside a sqlite3 callback *)

(** The status line the client reads; an uncaught exception sends none. *)
Definition status_of (r : response) : option Z :=
  match r with
  | res_json status _ => Some status
  | res_end status => Some status
  | res_errors _ => Some 400
  | next_err => Some 500
  | uncaught_exception => None
  end.

Definition NotFound (r : response) : Prop := status_of r = Some 404.
Definition ValidationError (r : response) : Prop := status_of r = Some 400.

(** ** express-validator *)

Definition is_alphanumeric_char (c : ascii) : bool :=
  let n := N_of_ascii c in
  ((48 <=? n) && (n <=? 57) || (65 <=? n) && (n <=? 90)
   || (97 <=? n) && (n <=? 122))%N.

Fixpoint all_alphanumeric (s : string) : bool :=
  match s with
  | EmptyString => true
  | String c rest => is_alphanumeric_char c && all_alphanumeric rest
  end.

(** [param(...).isAlphanumeric()]: one or more of [0-9A-Za-z]. *)
Definition isAlphanumeric (s : string) : bool :=
  match s with
  | EmptyString => false
  | _ => all_alphanumeric s
  end.

(** [isInt({ min, max })] on an integer. *)
Definition isInt (min : Z) (max : option Z) (n : Z) : bool :=
  (min <=? n) && match max with Some m => n <=? m | None => true end.

(** [body().isArray()]. *)
Definition isArray (body : json) : bool :=
  match body with JArray _ => true | _ => false end.

(** [body().notEmpty()] is express-validator's, and what it takes for
    empty is not in the repository: the routes are stated over any such
    check. *)
Class BodyValidator : Type := {
  notEmpty : json -> bool
}.

(** [notEmpty] as the comment in the map route records it: a body of
    [null], of the empty string or of the empty array is caught, the empty
    object is not. *)
Definition notEmpty_as_commented : BodyValidator :=
  {| notEmpty body :=
       match body with
       | JNull => false
       | JString EmptyString => false
       | JArray nil => false
       | _ => true
       end |}.

(** One validation chain link: its message when the check fails. *)
Definition withMessage (ok : bool) (message : string) : list string :=
  if ok then [] else [message].

(** [!errors.isEmpty()] *)
Definition has_errors (errors : list string) : bool :=
  match errors with [] => false | _ => true end.

(** ** SQLite identifiers *)

(** The words that SQLite does not read as a name; which they are depends
    on its version, so the routes are stated over any such set. *)
Class SqlKeywords : Type := {
  reserved_word : string -> bool
}.

Definition is_digit_char (c : ascii) : bool :=
  let n := N_of_ascii c in ((48 <=? n) && (n <=? 57))%N.

(** An alphanumeric name that a statement can splice in as a table name:
    it does not start with a digit and is no reserved word. *)
Definition sql_identifier `{SqlKeywords} (name : string) : bool :=
  match name with
  | EmptyString => false
  | String c _ => negb (is_digit_char c) && negb (reserved_word name)
  end.

(** SQLite compares names after folding [A-Z] to [a-z]. *)
Definition fold_char (c : ascii) : ascii :=
  let n := N_of_ascii c in
  if ((65 <=? n) && (n <=? 90))%N then ascii_of_N (n + 32) else c.

Fixpoint fold_case (s : string) : string :=
  match s with
  | EmptyString => EmptyString
  | String c rest => String (fold_char c) (fold_case rest)
  end.

(** Words that every version of SQLite 3 reserves. *)
Definition reserved_words : list string :=
  ["add"; "all"; "alter"; "and"; "as"; "autoincrement"; "between"; "case";
   "check"; "collate"; "commit"; "constraint"; "create"; "default";
   "deferrable"; "delete"; "distinct"; "drop"; "else"; "escape"; "except";
   "exists"; "foreign"; "from"; "group"; "having"; "in"; "index"; "insert";
   "intersect"; "into"; "is"; "isnull"; "join"; "limit"; "not"; "notnull";
   "null"; "on"; "or"; "order"; "primary"; "references"; "select"; "set";
   "table"; "then"; "to"; "transaction"; "union"; "unique"; "update";
   "using"; "values"; "when"; "where"].

Definition sqlite_keywords : SqlKeywords :=
  {| reserved_word name := bool_decide (fold_case name ∈ reserved_words) |}.

(** ** What the routers share *)

(** [... ORDER by name]: text compares byte by byte (SQLite's BINARY
    collation), a proper prefix before the longer text. *)
Definition order_by_name (names : list string) : list string :=
  merge_sort String.le names.

(** Requests served one after the other by [handle]: the responses in the
    order of the requests, and the database after the last. *)
Fixpoint serve {Request Database : Type}
    (handle : Request -> Database -> response * Database)
    (requests : list Request) (db : Database) : list response * Database :=
  match requests with
  | [] => ([], db)
  | request :: later =>
    let r := handle request db in
    let rs := serve handle later r.2 in
    (r.1 :: rs.1, rs.2)
  end.

(** Of the responses to [requests], those to the requests equal to [r]. *)
Fixpoint answers_to {Request : Type} `{EqDecision Request}
    (r : Request) (requests : list Request) (responses : list response)
  : list response :=
  match requests, responses with
  | request :: requests', response :: responses' =>
    if decide (request = r) then response :: answers_to r requests' responses'
    else answers_to r requests' responses'
  | _, _ => []
  end.

(** ** routes/counter.js *)

Module Counter.

(** [counters.sqlite]:
    [CREATE TABLE counters (name TEXT NOT NULL PRIMARY KEY CHECK(name <> ''),
                            value INTEGER DEFAULT 0)] *)
Abbreviation database := (gmap string Z).

Definition MAX_SAFE_INTEGER : Z := 9007199254740991.

(** [SELECT value FROM counters WHERE name = ?]: the row, if there is one. *)
Definition select_value (name : string) (db : database) : option Z :=
  db !! name.

(** SQL [x + 1]: NULL stays NULL. *)
Definition sql_plus (x : option Z) (y : Z) : option Z :=
  match x with Some v => Some (v + y) | None => None end.

(** SQL [COALESCE(x, y)]. *)
Definition COALESCE (x : option Z) (y : Z) : Z :=
  match x with Some v => v | None => y end.

(** [INSERT OR REPLACE INTO counters (name, value) VALUES (?, ?)]; the
    [CHECK(name <> '')] constraint refuses the empty name. *)
Definition insert_or_replace (name : string) (value : Z) (db : database)
  : option database :=
  if String.eqb name "" then None else Some (<[name := value]> db).

(** [DELETE FROM counters WHERE name = ?] *)
Definition delete_where_name (name : string) (db : database) : database :=
  delete name db.

(** [router.post('/:counter')]: initialise a counter. *)
Definition router_post (counter : string) (body : Z) (db : database)
  : response * database :=
  let errors :=
    (withMessage (isAlphanumeric counter) "counter name is invalid"
     ++ withMessage (isInt 1 (Some MAX_SAFE_INTEGER) body)
          "counter value must be a positive integer")%list in
  if has_errors errors then (res_errors errors, db) else
  let counterName := counter in
  let counterValue := body in
  match insert_or_replace counterName counterValue db with
  | None => (next_err, db)
  | Some db' => (res_end 201, db')
  end.

(** [router.get('/:counter')]: increment the counter and read it back,
    between [BEGIN EXCLUSIVE TRANSACTION] and [COMMIT TRANSACTION]. *)
Definition router_get (counter : string) (db : database)
  : response * database :=
  let errors := withMessage (isAlphanumeric counter) "counter name is invalid" in
  if has_errors errors then (res_errors errors, db) else
  let counterName := counter in
  (* query1 *)
  match insert_or_replace counterName
          (COALESCE (sql_plus (select_value counterName db) 1) 1) db with
  | None => (next_err, db)
  | Some db1 =>
    (* query2 *)
    match select_value counterName db1 with
    | None => (uncaught_exception, db1)   (* row.value of no row *)
    | Some value =>
      let payload := to_double value in     (* row.value, a number *)
      (res_json 200 (JNumber payload), db1)
    end
  end.

(** [router.delete('/:counter')] *)
Definition router_delete (counter : string) (db : database)
  : response * database :=
  let errors := withMessage (isAlphanumeric counter) "counter name is invalid" in
  if has_errors errors then (res_errors errors, db) else
  (res_end 200, delete_where_name counter db).

(** The value the specification reads for a counter: 0 when it has no row. *)
Definition stored_value (name : string) (db : database) : Z :=
  default 0 (db !! name).

(** [n] calls of [router.get('/:counter')] one after the other: the
    responses in the order of the calls, and the database after the last. *)
Fixpoint get_times (n : nat) (counter : string) (db : database)
  : list response * database :=
  match n with
  | O => ([], db)
  | S n' =>
    let r := router_get counter db in
    let rs := get_times n' counter r.2 in
    (r.1 :: rs.1, rs.2)
  end.

(** [SELECT name FROM counters ORDER by name] *)
Definition select_names (db : database) : list string :=
  order_by_name (map_to_list db).*1.

(** [router.get('/')]: a list of all counters. *)
Definition router_get_root (db : database) : response * database :=
  let payload := JString <$> select_names db in
  (res_json 200 (JArray payload), db).

(** The requests of the router. *)
Inductive request : Type :=
  | GET_root
  | POST (counter : string) (body : Z)
  | GET (counter : string)
  | DELETE (counter : string).

Definition handle (r : request) (db : database) : response * database :=
  match r with
  | GET_root => router_get_root db
  | POST counter body => router_post counter body db
  | GET counter => router_get counter db
  | DELETE counter => router_delete counter db
  end.

#[global] Instance request_eq_dec : EqDecision request.
Proof. solve_decision. Defined.

End Counter.

(** ** routes/person.js *)

Module Person.

(** [persons.sqlite]:
    [CREATE TABLE persons (counter TEXT NOT NULL PRIMARY KEY CHECK(counter <> ''),
                           value INTEGER DEFAULT 0)], with the one row
    ["personCount"]. *)
Abbreviation database := (gmap string Z).

Definition is_alphabetic_char (c : ascii) : bool :=
  let n := N_of_ascii c in
  ((65 <=? n) && (n <=? 90) || (97 <=? n) && (n <=? 122))%N.

Fixpoint all_alphabetic (s : string) : bool :=
  match s with
  | EmptyString => true
  | String c rest => is_alphabetic_char c && all_alphabetic rest
  end.

(** [/^[a-zA-Z]+$/.test(value)] *)
Definition test_alphabetic (value : string) : bool :=
  match value with
  | EmptyString => false
  | _ => all_alphabetic value
  end.

(** [retryIfNotAlpha(fn, ...args)]: [fn] is called again until its value
    passes the test.  [results] are the values of the successive calls of
    [fn], which is faker's; [None] when none of them passes. *)
Fixpoint retryIfNotAlpha (results : list string) : option string :=
  match results with
  | [] => None
  | value :: later =>
    if test_alphabetic value then Some value else retryIfNotAlpha later
  end.

(** [toLowerCase()], on the ASCII letters. *)
Definition lower_char (c : ascii) : ascii :=
  let n := N_of_ascii c in
  if ((65 <=? n) && (n <=? 90))%N then ascii_of_N (n + 32) else c.

Fixpoint toLowerCase (s : string) : string :=
  match s with
  | EmptyString => EmptyString
  | String c rest => String (lower_char c) (toLowerCase rest)
  end.

(** The digits of [toString(32)]: [0-9] and [a-v]. *)
Definition digit32 (d : Z) : ascii :=
  if d <? 10 then ascii_of_N (Z.to_N (48 + d)) else ascii_of_N (Z.to_N (87 + d)).

Fixpoint digits32 (fuel : nat) (n : Z) : string :=
  match fuel with
  | O => EmptyString
  | S fuel' =>
    if n <? 32 then String (digit32 n) EmptyString
    else digits32 fuel' (n / 32) +:+ String (digit32 (n mod 32)) EmptyString
  end.

(** The digits of a magnitude: below [2 ^ 53] all of them, most
    significant first; from [2 ^ 53] on, where a double no longer holds
    every integer, V8 writes a [0] for each digit that takes the rest
    below [2 ^ 53]. *)
Fixpoint integer_digits32 (fuel : nat) (n : Z) : string :=
  match fuel with
  | O => digits32 (S (Z.to_nat (Z.log2 n))) n
  | S fuel' =>
    if n <? 2 ^ 53 then digits32 (S (Z.to_nat (Z.log2 n))) n
    else integer_digits32 fuel' (n / 32) +:+ "0"
  end.

(** [counter.toString(32)] on a number that is an integer: the digits of
    the magnitude after a minus sign when it is negative. *)
Definition toString32 (n : Z) : string :=
  if n <? 0 then String "-" (integer_digits32 (Z.to_nat (Z.log2 (- n))) (- n))
  else integer_digits32 (Z.to_nat (Z.log2 n)) n.

(** The template literal of the email address. *)
Definition email (firstName lastName : string) (counter : Z) : string :=
  toLowerCase firstName +:+ "." +:+ toLowerCase lastName +:+ "."
  +:+ toString32 counter +:+ "@myloadtest.email".

(** What a request draws from outside the repository: whether
    [Math.random() < 0.5], the values of the successive calls of
    [faker.name.firstName(gender)] and of [faker.name.lastName()], and
    [toISOString()] of the date of [faker.date.between(...)]. *)
Record draws : Type := {
  random_below_half : bool;
  firstNames : list string;
  lastNames : list string;
  birthdate_toISOString : string
}.

(** [router.get('/')]: a person with a unique email address, the counter
    taken between [BEGIN EXCLUSIVE TRANSACTION] and [COMMIT TRANSACTION].
    [None] when the names drawn hold none that passes the test. *)
Definition router_get (d : draws) (db : database)
  : option (response * database) :=
  let gender := if random_below_half d then "male" else "female" in
  match retryIfNotAlpha (firstNames d) with
  | None => None
  | Some firstName =>
    match retryIfNotAlpha (lastNames d) with
    | None => None
    | Some lastName =>
      let birthdate := birthdate_toISOString d in
      (* query1 *)
      match Counter.insert_or_replace "personCount"
              (Counter.COALESCE
                 (Counter.sql_plus (Counter.select_value "personCount" db) 1) 1)
              db with
      | None => Some (next_err, db)
      | Some db1 =>
        (* query2 *)
        match Counter.select_value "personCount" db1 with
        | None => Some (uncaught_exception, db1)   (* row.value of no row *)
        | Some value =>
          let counter := to_double value in        (* row.value, a number *)
          let email := email firstName lastName counter in
          Some (res_json 200
                  (JObject [("firstname", JString firstName);
                            ("lastname", JString lastName);
                            ("gender", JString gender);
                            ("birthdate", JString (substring 0 10 birthdate));
                            ("email", JString email)]),
                db1)
        end
      end
    end
  end.

(** Requests served one after the other, each with its draws. *)
Fixpoint serve (requests : list draws) (db : database)
  : option (list response * database) :=
  match requests with
  | [] => Some ([], db)
  | d :: later =>
    match router_get d db with
    | None => None
    | Some (response, db1) =>
      match serve later db1 with
      | None => None
      | Some (responses, db2) => Some (response :: responses, db2)
      end
    end
  end.

(** A field of the object a response carries. *)
Fixpoint assoc (key : string) (fields : list (string * json)) : option json :=
  match fields with
  | [] => None
  | (k, v) :: rest => if String.eqb k key then Some v else assoc key rest
  end.

Definition field (key : string) (r : response) : option json :=
  match r with
  | res_json _ (JObject fields) => assoc key fields
  | _ => None
  end.

(** Reading [toString(32)] back, as [parseInt(text, 32)] does. *)
Definition digit_value (c : ascii) : Z :=
  let n := Z.of_N (N_of_ascii c) in
  if n <? 58 then n - 48 else n - 87.

Fixpoint value32 (acc : Z) (s : string) : Z :=
  match s with
  | EmptyString => acc
  | String c rest => value32 (acc * 32 + digit_value c) rest
  end.

Definition parseInt32 (s : string) : Z :=
  match s with
  | String "-" rest => - value32 0 rest
  | _ => value32 0 s
  end.

Definition is_base32_char (c : ascii) : bool :=
  let n := N_of_ascii c in
  ((48 <=? n) && (n <=? 57) || (97 <=? n) && (n <=? 118))%N.

(** The characters of an address: [a-z], [0-9], the dot and the at sign. *)
Definition is_email_char (c : ascii) : bool :=
  let n := N_of_ascii c in
  ((97 <=? n) && (n <=? 122) || (48 <=? n) && (n <=? 57)
   || (n =? 46) || (n =? 64))%N.

(** The draws of a request hold a first and a last name that pass the
    test of [retryIfNotAlpha]. *)
Definition names_found (d : draws) : Prop :=
  Exists (fun value => test_alphabetic value = true) (firstNames d)
  /\ Exists (fun value => test_alphabetic value = true) (lastNames d).

End Person.

(** ** routes/map.js *)

Module Maps.

(** [maps.sqlite]:
    [CREATE TABLE maps (name TEXT NOT NULL PRIMARY KEY CHECK(name <> ''),
                        value TEXT NOT NULL CHECK(value <> ''))] *)
Abbreviation database := (gmap string string).

(** [SELECT value FROM maps WHERE name = ?] *)
Definition select_value (name : string) (db : database) : option string :=
  db !! name.

(** [INSERT OR REPLACE INTO maps (name, value) VALUES (?, ?)], refused by
    either [CHECK] constraint. *)
Definition insert_or_replace (name value : string) (db : database)
  : option database :=
  if String.eqb name "" || String.eqb value "" then None
  else Some (<[name := value]> db).

(** [DELETE FROM maps WHERE name = ?] *)
Definition delete_where_name (name : string) (db : database) : database :=
  delete name db.

Section Routes.
Context `{JsonCodec} `{BodyValidator}.

(** [router.post('/:map')]: save a value to a key. *)
Definition router_post (map : string) (body : json) (db : database)
  : response * database :=
  let errors :=
    (withMessage (isAlphanumeric map) "map name is invalid"
     ++ withMessage (notEmpty body) "map value cannot be null or empty")%list in
  if has_errors errors then (res_errors errors, db) else
  let mapKey := map in
  let mapValue := JSON_stringify body in
  match insert_or_replace mapKey mapValue db with
  | None => (next_err, db)
  | Some db' => (res_end 201, db')
  end.

(** [router.get('/:map')]: the value associated with a key. *)
Definition router_get (map : string) (db : database) : response * database :=
  let errors := withMessage (isAlphanumeric map) "map name is invalid" in
  if has_errors errors then (res_errors errors, db) else
  let mapKey := map in
  match select_value mapKey db with
  | None =>
    (res_json 404 (JObject [("key", JString mapKey);
                            ("message", JString "Map key was not found")]), db)
  | Some value =>
    match JSON_parse value with
    | Some v => (res_json 200 v, db)
    | None => (next_err, db)              (* catch (err) { next(err) } *)
    end
  end.

(** [router.delete('/:map')] *)
Definition router_delete (map : string) (db : database) : response * database :=
  let errors := withMessage (isAlphanumeric map) "map name is invalid" in
  if has_errors errors then (res_errors errors, db) else
  (res_end 200, delete_where_name map db).

(** [SELECT name FROM maps ORDER by name] *)
Definition select_names (db : database) : list string :=
  order_by_name (map_to_list db).*1.

(** [router.get('/')]: a list of all keys in the map. *)
Definition router_get_root (db : database) : response * database :=
  let payload := JString <$> select_names db in
  (res_json 200 (JArray payload), db).

(** The requests of the router. *)
Inductive request : Type :=
  | GET_root
  | POST (map : string) (body : json)
  | GET (map : string)
  | DELETE (map : string).

Definition handle (r : request) (db : database) : response * database :=
  match r with
  | GET_root => router_get_root db
  | POST map body => router_post map body db
  | GET map => router_get map db
  | DELETE map => router_delete map db
  end.

End Routes.
End Maps.

(** ** The map as a dictionary

    The map store of the specification (section 4.3): a dictionary from
    keys to values, put an unconditional create-or-replace, get failing
    on an absent key, remove an unconditional delete.  The routes are
    compared with it in the properties. *)

Module Dict.

Abbreviation state := (gmap string json).

Definition handle (r : Maps.request) (s : state) : response * state :=
  match r with
  | Maps.GET_root =>
    (res_json 200 (JArray (JString <$> order_by_name (map_to_list s).*1)), s)
  | Maps.POST key value => (res_end 201, <[key := value]> s)
  | Maps.GET key =>
    match s !! key with
    | Some value => (res_json 200 value, s)
    | None =>
      (res_json 404 (JObject [("key", JString key);
                              ("message", JString "Map key was not found")]), s)
    end
  | Maps.DELETE key => (res_end 200, delete key s)
  end.

Section Representation.
Context `{JsonCodec} `{BodyValidator}.

(** A database represents a dictionary when its rows are the keys of the
    dictionary with the texts of their values, all serializable. *)
Definition represents (db : gmap string string) (s : state) : Prop :=
  db = JSON_stringify <$> s /\ map_Forall (fun _ value => serializable value) s.

(** The requests the routes do not refuse: alphanumeric keys, and on put
    a serializable value that passes [notEmpty]. *)
Definition accepted (r : Maps.request) : Prop :=
  match r with
  | Maps.GET_root => True
  | Maps.POST key value =>
    isAlphanumeric key = true /\ notEmpty value = true /\ serializable value
  | Maps.GET key | Maps.DELETE key => isAlphanumeric key = true
  end.

End Representation.
End Dict.

(** ** routes/queue.js *)

Module Queue.

(** A queue is a table of its own:
    [CREATE TABLE q (position INTEGER PRIMARY KEY,
                     item TEXT NOT NULL CHECK(item <> ''))],
    a finite map from the position to the item. *)
Abbreviation table := (gmap Z string).

(** [queues.sqlite]: the tables by the name [sqlite_master] lists them under. *)
Abbreviation database := (gmap string (gmap Z string)).

Abbreviation row := (Z * string)%type.
Definition position (r : row) : Z := r.1.
Definition item (r : row) : string := r.2.

(** [SELECT count( * ) FROM sqlite_master WHERE type='table' AND name=?] *)
Definition count_sqlite_master (tableName : string) (db : database) : Z :=
  match db !! tableName with Some _ => 1 | None => 0 end.

(** [dbTableExists]: [!!row['count( * )']] *)
Definition dbTableExists (tableName : string) (db : database) : bool :=
  negb (count_sqlite_master tableName db =? 0).

(** The table that a name spliced into a statement reads as: the table of
    that name whatever the case of its letters.  SQLite holds no two tables
    whose names differ only in case; where the map holds a table of the
    exact name, that one is taken. *)
Definition resolve (name : string) (db : database) : option string :=
  match db !! name with
  | Some _ => Some name
  | None =>
    head (filter (fun k => fold_case k = fold_case name) (map_to_list db).*1)
  end.

(** No table is named as the queue but for the case of its letters. *)
Definition no_other_spelling (name : string) (db : database) : Prop :=
  forall k, is_Some (db !! k) -> fold_case k = fold_case name -> k = name.

(** [CREATE TABLE IF NOT EXISTS q (...)], the name spliced in: [None] for
    the syntax error of a name that is no identifier; nothing is created
    where a table of that name in any spelling exists. *)
Definition create_table_if_not_exists `{SqlKeywords}
    (name : string) (db : database) : option database :=
  if sql_identifier name then
    match resolve name db with
    | Some _ => Some db
    | None => Some (<[name := ∅]> db)
    end
  else None.

(** [DROP TABLE q] *)
Definition drop_table (name : string) (db : database) : database :=
  delete name db.

Definition position_le (r1 r2 : row) : Prop := position r1 ≤ position r2.
Definition position_lt (r1 r2 : row) : Prop := position r1 < position r2.

#[global] Instance position_le_dec : RelDecision position_le.
Proof. intros r1 r2. unfold position_le. apply _. Defined.

(** [... ORDER BY position ASC] *)
Definition order_by_position (t : table) : list row :=
  merge_sort position_le (map_to_list t).

(** [... LIMIT ?]: a negative limit is no limit, and a limit that does
    not fit the 64 bits of an integer is refused ([SQLITE_MISMATCH]). *)
Definition LIMIT (n : Z) (rows : list row) : option (list row) :=
  if 2 ^ 63 <=? n then None
  else Some (if n <? 0 then rows else take (Z.to_nat n) rows).

(** [SELECT count( * ) FROM q] *)
Definition select_count (t : table) : Z := Z.of_nat (size t).

(** The largest position in use, if the table has a row. *)
Definition max_position (t : table) : option Z :=
  foldr (fun r acc => Some match acc with
                           | Some m => Z.max (position r) m
                           | None => position r
                           end) None (map_to_list t).

(** The position an [INSERT] that names none gives its row: one more than
    the largest in use, 1 in an empty table. *)
Definition new_rowid (t : table) : Z :=
  match max_position t with Some m => m + 1 | None => 1 end.

(** One row of [INSERT INTO q (item) VALUES ...]. *)
Definition insert_row (item : string) (t : table) : option table :=
  if String.eqb item "" then None          (* CHECK(item <> '') *)
  else Some (<[new_rowid t := item]> t).

(** The rows of [INSERT INTO q (item) VALUES (?), (?), ...] in the order
    of the values; a row that is refused undoes the statement. *)
Fixpoint insert_values (items : list string) (t : table) : option table :=
  match items with
  | [] => Some t
  | i :: rest =>
    match insert_row i t with
    | None => None
    | Some t' => insert_values rest t'
    end
  end.

(** [INSERT INTO q (item) VALUES (?), (?), ...], one [(?)] per item and
    the name spliced in: the rows go to the table that the name reads
    as. *)
Definition insert_into `{SqlKeywords}
    (name : string) (items : list string) (db : database) : option database :=
  if negb (sql_identifier name) then None   (* syntax error *)
  else
    match items, resolve name db with
    | [], _ => None                         (* VALUES with no row: syntax error *)
    | _, None => None                       (* no such table *)
    | _, Some k =>
      match db !! k with
      | None => None
      | Some t =>
        match insert_values items t with
        | None => None
        | Some t' => Some (<[k := t']> db)
        end
      end
    end.

(** [DELETE FROM q WHERE position IN (...)] *)
Definition delete_where_position_in (positions : list Z) (t : table) : table :=
  filter (fun r : Z * string => position r ∉ positions) t.

(** [new Array(x)]: a single numeric argument is a length, and the array
    holds that many empty slots, each of which [res.json] writes as
    [null]; a number that is no array length is a [RangeError]. *)
Definition new_Array (x : json) : option (list json) :=
  match x with
  | JNumber n =>
    if (0 <=? n) && (n <? 2 ^ 32) then Some (replicate (Z.to_nat n) JNull)
    else None
  | _ => Some [x]
  end.

Definition not_found (queueName : string) : response :=
  res_json 404 (JObject [("queue", JString queueName);
                         ("message", JString "Queue was not found")]).

Section Routes.
Context `{JsonCodec} `{BodyValidator} `{SqlKeywords}.

(** [rows.map(r => JSON.parse(r.item))]; [None] when a [parse] throws. *)
Definition parse_items (rows : list row) : option (list json) :=
  mapM (fun r => JSON_parse (item r)) rows.

(** [router.post('/:queue')]: save one or more items to a queue. *)
Definition router_post (queue : string) (body : json) (db : database)
  : response * database :=
  let errors :=
    (withMessage (isAlphanumeric queue) "queue name is invalid"
     ++ withMessage (isArray body) "queued items must be in an array"
     ++ withMessage (notEmpty body) "array cannot be empty")%list in
  if has_errors errors then (res_errors errors, db) else
  let queueName := queue in
  let tableExists := dbTableExists queueName db in
  let created :=
    if negb tableExists then create_table_if_not_exists queueName db
    else Some db in
  let db1 := default db created in
  match body with
  | JArray a =>
    let items := JSON_stringify <$> a in
    match created, insert_into queueName items db1 with
    | Some _, Some db2 => (res_end 201, db2)
    | None, Some db2 => (next_err, db2)    (* next(err) of the CREATE *)
    | _, None => (next_err, db1)
    end
  | _ => (uncaught_exception, db1)         (* req.body.map is not a function *)
  end.

(** [router.get('/:queue')]: take the next items from the queue, between
    [BEGIN EXCLUSIVE TRANSACTION] and [COMMIT TRANSACTION]. *)
Definition router_get (queue : string) (limit : option Z) (db : database)
  : response * database :=
  let errors :=
    (withMessage (isAlphanumeric queue) "queue name is invalid"
     ++ withMessage (match limit with
                     | Some l => isInt 1 None l
                     | None => true         (* optional() *)
                     end) "limit value must be a positive integer")%list in
  if has_errors errors then (res_errors errors, db) else
  let queueName := queue in
  if negb (dbTableExists queueName db) then (not_found queueName, db) else
  let limit := default 1 limit in          (* req.query.limit || 1 *)
  match db !! queueName with
  | None => (next_err, db)
  | Some t =>
    (* query1 *)
    match LIMIT limit (order_by_position t) with
    | None => (next_err, db)               (* query2 is refused as well *)
    | Some rows =>
      match parse_items rows with
      | None => (uncaught_exception, db)
      | Some items =>
        (* query2 *)
        let t' :=
          match LIMIT limit (order_by_position t) with
          | None => t
          | Some selected =>
            delete_where_position_in (position <$> selected) t
          end in
        (res_json 200 (JArray items), <[queueName := t']> db)
      end
    end
  end.

(** [router.delete('/:queue')]: remove the queue and its items. *)
Definition router_delete (queue : string) (db : database)
  : response * database :=
  let errors := withMessage (isAlphanumeric queue) "queue name is invalid" in
  if has_errors errors then (res_errors errors, db) else
  let queueName := queue in
  if negb (dbTableExists queueName db) then (res_end 200, db)
  else (res_end 200, drop_table queueName db).

(** [router.get('/:queue/depth')]: the number of items on the queue. *)
Definition router_get_depth (queue : string) (db : database)
  : response * database :=
  let errors := withMessage (isAlphanumeric queue) "queue name is invalid" in
  if has_errors errors then (res_errors errors, db) else
  let queueName := queue in
  if negb (dbTableExists queueName db) then (not_found queueName, db) else
  match db !! queueName with
  | None => (next_err, db)
  | Some t => (res_json 200 (JNumber (select_count t)), db)
  end.

(** [router.get('/:queue/peek')]: read the next item without removing it. *)
Definition router_get_peek (queue : string) (db : database)
  : response * database :=
  let errors := withMessage (isAlphanumeric queue) "queue name is invalid" in
  if has_errors errors then (res_errors errors, db) else
  let queueName := queue in
  if negb (dbTableExists queueName db) then (not_found queueName, db) else
  match db !! queueName with
  | None => (next_err, db)
  | Some t =>
    match LIMIT 1 (order_by_position t) with
    | None => (next_err, db)
    | Some rows =>
      match head rows with                  (* db.get: the first row *)
      | None => (res_json 200 (JArray []), db)
      | Some row =>
        match JSON_parse (item row) with
        | None => (uncaught_exception, db)
        | Some payload =>
          match new_Array payload with
          | None => (uncaught_exception, db)
          | Some a => (res_json 200 (JArray a), db)
          end
        end
      end
    end
  end.

(** [n] calls of peek in a row: the database after the last one. *)
Fixpoint peek_times (n : nat) (queue : string) (db : database) : database :=
  match n with
  | O => db
  | S n' => peek_times n' queue (router_get_peek queue db).2
  end.

(** [SELECT name FROM sqlite_master WHERE type='table' ORDER by name] *)
Definition select_names (db : database) : list string :=
  order_by_name (map_to_list db).*1.

(** [router.get('/')]: a list of all queue names. *)
Definition router_get_root (db : database) : response * database :=
  let payload := JString <$> select_names db in
  (res_json 200 (JArray payload), db).

(** [router.get('/:queue/export')]: read all items without removing them. *)
Definition router_get_export (queue : string) (db : database)
  : response * database :=
  let errors := withMessage (isAlphanumeric queue) "queue name is invalid" in
  if has_errors errors then (res_errors errors, db) else
  let queueName := queue in
  if negb (dbTableExists queueName db) then (not_found queueName, db) else
  match db !! queueName with
  | None => (next_err, db)
  | Some t =>
    match parse_items (order_by_position t) with
    | None => (uncaught_exception, db)
    | Some payload => (res_json 200 (JArray payload), db)
    end
  end.

(** The requests of the router. *)
Inductive request : Type :=
  | GET_root
  | POST (queue : string) (body : json)
  | GET (queue : string) (limit : option Z)
  | DELETE (queue : string)
  | GET_depth (queue : string)
  | GET_peek (queue : string)
  | GET_export (queue : string).

Definition handle (r : request) (db : database) : response * database :=
  match r with
  | GET_root => router_get_root db
  | POST queue body => router_post queue body db
  | GET queue limit => router_get queue limit db
  | DELETE queue => router_delete queue db
  | GET_depth queue => router_get_depth queue db
  | GET_peek queue => router_get_peek queue db
  | GET_export queue => router_get_export queue db
  end.

End Routes.
End Queue.

(** ** The queues as lists

    The state machine of the specification (section 4.4): a queue is a
    list of payloads, enqueue adds at the back, dequeue takes from the
    front, clear drops the queue.  The routes are compared with it in the
    properties. *)

Module Fifo.

Abbreviation state := (gmap string (list json)).

(** The answer to a request and the state after it; [None] for an enqueue
    whose body is no array, and for peek, which is left to the routes. *)
Definition handle (r : Queue.request) (s : state) : option (response * state) :=
  match r with
  | Queue.GET_root =>
    Some (res_json 200 (JArray (JString <$> order_by_name (map_to_list s).*1)), s)
  | Queue.POST queue (JArray items) =>
    Some (res_end 201, <[queue := default [] (s !! queue) ++ items]> s)
  | Queue.POST _ _ => None
  | Queue.GET queue limit =>
    match s !! queue with
    | None => Some (Queue.not_found queue, s)
    | Some q =>
      let k := Z.to_nat (default 1 limit) in
      Some (res_json 200 (JArray (take k q)), <[queue := drop k q]> s)
    end
  | Queue.DELETE queue => Some (res_end 200, delete queue s)
  | Queue.GET_depth queue =>
    match s !! queue with
    | None => Some (Queue.not_found queue, s)
    | Some q => Some (res_json 200 (JNumber (Z.of_nat (length q))), s)
    end
  | Queue.GET_peek _ => None
  | Queue.GET_export queue =>
    match s !! queue with
    | None => Some (Queue.not_found queue, s)
    | Some q => Some (res_json 200 (JArray q), s)
    end
  end.

Fixpoint serve (requests : list Queue.request) (s : state)
  : option (list response * state) :=
  match requests with
  | [] => Some ([], s)
  | request :: later =>
    match handle request s with
    | None => None
    | Some (response, s') =>
      match serve later s' with
      | None => None
      | Some (responses, s'') => Some (response :: responses, s'')
      end
    end
  end.

(** The queue that a request names. *)
Definition name_of (r : Queue.request) : option string :=
  match r with
  | Queue.GET_root => None
  | Queue.POST queue _ | Queue.GET queue _ | Queue.DELETE queue
  | Queue.GET_depth queue | Queue.GET_peek queue | Queue.GET_export queue =>
    Some queue
  end.

(** Each name is written in one way: no two of the names differ only in
    the case of their letters. *)
Definition one_spelling (names : list string) : Prop :=
  forall a b, a ∈ names -> b ∈ names -> fold_case a = fold_case b -> a = b.

Section Representation.
Context `{JsonCodec} `{BodyValidator} `{SqlKeywords}.

(** A database represents a state of lists when it has a table for each
    list and no other, the items of the table in ascending position
    being the texts of the payloads of the list, all serializable. *)
Definition represents (db : gmap string (gmap Z string)) (s : state) : Prop :=
  forall queue,
    match db !! queue, s !! queue with
    | Some t, Some q =>
      Queue.item <$> Queue.order_by_position t = JSON_stringify <$> q
      /\ Forall serializable q
    | None, None => True
    | _, _ => False
    end.

(** The requests that the routes and SQLite do not refuse: alphanumeric
    names that SQLite reads as identifiers; on enqueue a non-empty array
    of serializable items that passes [notEmpty]; on dequeue a limit of at
    least 1 that fits the 64 bits. *)
Definition accepted (r : Queue.request) : Prop :=
  match r with
  | Queue.GET_root => True
  | Queue.POST queue body =>
    isAlphanumeric queue = true /\ sql_identifier queue = true
    /\ notEmpty body = true
    /\ exists a, body = JArray a /\ a <> [] /\ Forall serializable a
  | Queue.GET queue limit =>
    isAlphanumeric queue = true /\ sql_identifier queue = true
    /\ 1 <= default 1 limit < 2 ^ 63
  | Queue.GET_peek _ => False
  | Queue.DELETE queue | Queue.GET_depth queue | Queue.GET_export queue =>
    isAlphanumeric queue = true /\ sql_identifier queue = true
  end.

End Representation.
End Fifo.

(** ** A JSON text codec

    A printer and a parser of JSON text without white space, as
    [JSON.stringify] writes it: an instance of [JsonCodec] to run the
    routes on. *)

Module JsonText.

Definition dquote : ascii := "034"%char.
Definition backslash : ascii := "092"%char.

(** The characters of a string literal: a quote or a backslash is
    preceded by a backslash. *)
Fixpoint escape (s : string) : string :=
  match s with
  | EmptyString => EmptyString
  | String c rest =>
    if Ascii.eqb c dquote || Ascii.eqb c backslash
    then String backslash (String c (escape rest))
    else String c (escape rest)
  end.

Definition quoted (s : string) : string :=
  String dquote (escape s +:+ String dquote EmptyString).

Fixpoint join_comma (texts : list string) : string :=
  match texts with
  | [] => EmptyString
  | [t] => t
  | t :: rest => t +:+ "," +:+ join_comma rest
  end.

Fixpoint stringify (v : json) : string :=
  match v with
  | JNull => "null"
  | JBool true => "true"
  | JBool false => "false"
  | JNumber n => pretty n
  | JString s => quoted s
  | JArray a => "[" +:+ join_comma (map stringify a) +:+ "]"
  | JObject o =>
    "{" +:+ join_comma (map (fun kv => quoted kv.1 +:+ ":" +:+ stringify kv.2) o)
        +:+ "}"
  end.

(** [expect word s]: the rest of [s] after [word]. *)
Fixpoint expect (word s : string) : option string :=
  match word, s with
  | EmptyString, _ => Some s
  | String c word', String d s' =>
    if Ascii.eqb c d then expect word' s' else None
  | String _ _, EmptyString => None
  end.

(** The characters of a string literal up to its closing quote. *)
Fixpoint parse_chars (s : string) : option (string * string) :=
  match s with
  | EmptyString => None
  | String c rest =>
    if Ascii.eqb c dquote then Some (EmptyString, rest)
    else if Ascii.eqb c backslash then
      match rest with
      | String d rest' =>
        match parse_chars rest' with
        | Some (chars, rest'') => Some (String d chars, rest'')
        | None => None
        end
      | EmptyString => None
      end
    else
      match parse_chars rest with
      | Some (chars, rest') => Some (String c chars, rest')
      | None => None
      end
  end.

Definition digit_of (c : ascii) : option Z :=
  let n := Z.of_N (N_of_ascii c) in
  if (48 <=? n) && (n <=? 57) then Some (n - 48) else None.

(** The digits at the head of [s], read onto [acc]. *)
Fixpoint parse_digits (acc : Z) (s : string) : Z * string :=
  match s with
  | EmptyString => (acc, s)
  | String c rest =>
    match digit_of c with
    | Some d => parse_digits (10 * acc + d) rest
    | None => (acc, s)
    end
  end.

Definition parse_natural (s : string) : option (Z * string) :=
  match s with
  | String c _ =>
    match digit_of c with
    | Some _ => Some (parse_digits 0 s)
    | None => None
    end
  | EmptyString => None
  end.

(** One value at the head of [s], and the text after it. *)
Fixpoint parse_value (fuel : nat) (s : string) : option (json * string) :=
  match fuel with
  | O => None
  | S fuel' =>
    match s with
    | EmptyString => None
    | String c rest =>
      if Ascii.eqb c "n" then
        match expect "ull" rest with Some r => Some (JNull, r) | None => None end
      else if Ascii.eqb c "t" then
        match expect "rue" rest with Some r => Some (JBool true, r) | None => None end
      else if Ascii.eqb c "f" then
        match expect "alse" rest with Some r => Some (JBool false, r) | None => None end
      else if Ascii.eqb c dquote then
        match parse_chars rest with
        | Some (chars, r) => Some (JString chars, r)
        | None => None
        end
      else if Ascii.eqb c "-" then
        match parse_natural rest with
        | Some (n, r) => Some (JNumber (- n), r)
        | None => None
        end
      else if Ascii.eqb c "[" then
        match rest with
        | String d r =>
          if Ascii.eqb d "]" then Some (JArray [], r)
          else match parse_elements fuel' rest with
               | Some (a, r') => Some (JArray a, r')
               | None => None
               end
        | EmptyString => None
        end
      else if Ascii.eqb c "{" then
        match rest with
        | String d r =>
          if Ascii.eqb d "}" then Some (JObject [], r)
          else match parse_members fuel' rest with
               | Some (o, r') => Some (JObject o, r')
               | None => None
               end
        | EmptyString => None
        end
      else
        match parse_natural s with
        | Some (n, r) => Some (JNumber n, r)
        | None => None
        end
    end
  end
with parse_elements (fuel : nat) (s : string) : option (list json * string) :=
  match fuel with
  | O => None
  | S fuel' =>
    match parse_value fuel' s with
    | Some (v, String c rest) =>
      if Ascii.eqb c "]" then Some ([v], rest)
      else if Ascii.eqb c "," then
        match parse_elements fuel' rest with
        | Some (a, r) => Some (v :: a, r)
        | None => None
        end
      else None
    | _ => None
    end
  end
with parse_members (fuel : nat) (s : string)
  : option (list (string * json) * string) :=
  match fuel with
  | O => None
  | S fuel' =>
    match s with
    | String q s1 =>
      if Ascii.eqb q dquote then
        match parse_chars s1 with
        | Some (key, String colon s2) =>
          if Ascii.eqb colon ":" then
            match parse_value fuel' s2 with
            | Some (v, String c rest) =>
              if Ascii.eqb c "}" then Some ([(key, v)], rest)
              else if Ascii.eqb c "," then
                match parse_members fuel' rest with
                | Some (o, r) => Some ((key, v) :: o, r)
                | None => None
                end
              else None
            | _ => None
            end
          else None
        | _ => None
        end
      else None
    | EmptyString => None
    end
  end.

(** The whole text is one value. *)
Definition parse (s : string) : option json :=
  match parse_value (S (String.length s)) s with
  | Some (v, EmptyString) => Some v
  | _ => None
  end.

Definition codec : JsonCodec :=
  {| JSON_stringify := stringify; JSON_parse := parse |}.

End JsonText.

(** ** A sample database *)

(** A queue of three texts at the positions 4, 5 and 7. *)
Definition vin_table : gmap Z string :=
  list_to_map [(5, JsonText.stringify (JString "VIN2"));
               (7, JsonText.stringify (JString "VIN3"));
               (4, JsonText.stringify (JString "VIN1"))].

Definition vin_database : gmap string (gmap Z string) :=
  <["vin" := vin_table]> ∅.

(** * Properties *)

(** ** Names *)

Lemma isAlphanumeric_nonempty name :
  isAlphanumeric name = true -> String.eqb name "" = false.
Proof. destruct name; [discriminate | reflexivity]. Qed.

(** ** Numbers *)

Lemma to_double_exact n : - 2 ^ 53 <= n <= 2 ^ 53 -> to_double n = n.
Proof.
  intros Hn. cbv beta zeta delta [to_double].
  destruct (Z.eq_dec (Z.abs n) (2 ^ 53)) as [Hmax | Hbelow].
  - assert (n = 2 ^ 53 \/ n = - 2 ^ 53) as [-> | ->] by lia; reflexivity.
  - assert (Z.log2 (Z.abs n) - 52 <= 0) as Hfits.
    { destruct (Z.eq_dec (Z.abs n) 0) as [-> | Hpos]; [cbn; lia |].
      assert (Z.log2 (Z.abs n) < 53); [| lia].
      apply Z.log2_lt_pow2; lia. }
    apply Z.leb_le in Hfits. by rewrite Hfits.
Qed.

Lemma to_double_nonneg n : 0 <= n -> 0 <= to_double n.
Proof.
  intros Hn. cbv beta zeta delta [to_double].
  destruct (_ <=? 0) eqn:Hfits; [exact Hn |].
  apply Z.mul_nonneg_nonneg; [lia |].
  assert (0 <= Z.abs n / 2 ^ (Z.log2 (Z.abs n) - 52)) as Hq.
  { apply Z.div_pos; [lia |]. apply Z.pow_pos_nonneg; [lia |].
    apply Z.leb_gt in Hfits. lia. }
  apply Z.mul_nonneg_nonneg; [| apply Z.pow_nonneg; lia].
  repeat match goal with |- context [if ?b then _ else _] => destruct b end;
    lia.
Qed.

(** ** Counters *)

Section CounterProperties.
Implicit Types (counter : string) (db : gmap string Z).

Lemma counter_get_eq counter db :
  isAlphanumeric counter = true ->
  Counter.router_get counter db =
    (res_json 200 (JNumber (to_double (Counter.stored_value counter db + 1))),
     <[counter := Counter.stored_value counter db + 1]> db).
Proof.
  intros Hname.
  unfold Counter.router_get, Counter.insert_or_replace, Counter.select_value.
  rewrite Hname, (isAlphanumeric_nonempty _ Hname). cbn [withMessage has_errors].
  rewrite lookup_insert_eq. unfold Counter.stored_value.
  destruct (db !! counter) as [v|]; reflexivity.
Qed.

Lemma counter_post_eq counter body db :
  isAlphanumeric counter = true -> 1 <= body <= Counter.MAX_SAFE_INTEGER ->
  Counter.router_post counter body db = (res_end 201, <[counter := body]> db).
Proof.
  intros Hname [Hlo Hhi].
  unfold Counter.router_post, Counter.insert_or_replace, isInt.
  rewrite Hname, (isAlphanumeric_nonempty _ Hname).
  apply Z.leb_le in Hlo, Hhi. rewrite Hlo, Hhi. reflexivity.
Qed.

Lemma counter_post_invalid counter body db :
  body < 1 \/ Counter.MAX_SAFE_INTEGER < body ->
  exists errors,
    Counter.router_post counter body db = (res_errors errors, db).
Proof.
  intros Hbody. unfold Counter.router_post, isInt.
  assert ((1 <=? body) && (body <=? Counter.MAX_SAFE_INTEGER) = false) as ->.
  { apply andb_false_iff. destruct Hbody; [left | right]; apply Z.leb_gt; lia. }
  destruct (isAlphanumeric counter); cbn; eauto.
Qed.

Lemma stored_value_insert counter v db :
  Counter.stored_value counter (<[counter := v]> db) = v.
Proof. unfold Counter.stored_value. by rewrite lookup_insert_eq. Qed.

(** C1, as JavaScript reads the number.  One call of incrementAndGet
    ([GET /counter/{name}]) on a counter whose stored value is [v] (0 when
    the counter has no row) leaves [v + 1] stored under that name, the
    other counters as they were, and answers the double nearest to
    [v + 1]: [v + 1] itself when its magnitude is at most [2 ^ 53].  In
    particular, after [initialize("orderId", 1027465)] has answered 201,
    two calls in a row answer 1027466 and then 1027467. *)
Theorem incrementAndGet_returns_next counter db :
  isAlphanumeric counter = true ->
  let v := Counter.stored_value counter db in
  let r := Counter.router_get counter db in
  r.1 = res_json 200 (JNumber (to_double (v + 1)))
  /\ (- 2 ^ 53 <= v + 1 <= 2 ^ 53 -> r.1 = res_json 200 (JNumber (v + 1)))
  /\ Counter.stored_value counter r.2 = v + 1
  /\ r.2 = <[counter := v + 1]> db
  /\ (forall db0,
        let init := Counter.router_post "orderId" 1027465 db0 in
        let first := Counter.router_get "orderId" init.2 in
        let second := Counter.router_get "orderId" first.2 in
        init.1 = res_end 201
        /\ first.1 = res_json 200 (JNumber 1027466)
        /\ second.1 = res_json 200 (JNumber 1027467)).
Proof.
  intros Hname v r. subst v r. rewrite (counter_get_eq _ _ Hname). cbn [fst snd].
  split; [reflexivity |].
  split; [intros Hsafe; by rewrite (to_double_exact _ Hsafe) |].
  split; [apply stored_value_insert |].
  split; [reflexivity |].
  intros db0. cbv zeta.
  assert (isAlphanumeric "orderId" = true) as Hid by reflexivity.
  rewrite counter_post_eq by (done || (unfold Counter.MAX_SAFE_INTEGER; lia)).
  cbn [fst snd]. rewrite (counter_get_eq _ _ Hid). cbn [fst snd].
  rewrite (counter_get_eq _ _ Hid). cbn [fst snd].
  rewrite !stored_value_insert. done.
Qed.

Lemma incrementAndGet_returns_next_witness :
  let db : gmap string Z := <["orderId" := 41]> ∅ in
  let r := Counter.router_get "orderId" db in
  r.1 = res_json 200 (JNumber 42) /\ Counter.stored_value "orderId" r.2 = 42.
Proof.
  intros db r.
  destruct (incrementAndGet_returns_next "orderId" db eq_refl)
    as (_ & H1 & H2 & _).
  split; [apply H1; vm_compute; split; discriminate | exact H2].
Defined.

(** C1 as the specification states it fails from [2 ^ 53] on.  After
    [initialize("orderId", 9007199254740991)] the first call answers
    9007199254740992 and the second, with 9007199254740992 stored, answers
    9007199254740992 again and leaves 9007199254740993 stored: the answer
    is neither the value before plus 1 nor the value stored. *)
Lemma incrementAndGet_repeats_above_2_53 :
  let init := Counter.router_post "orderId" 9007199254740991 ∅ in
  let first := Counter.router_get "orderId" init.2 in
  let second := Counter.router_get "orderId" first.2 in
  init.1 = res_end 201
  /\ first.1 = res_json 200 (JNumber 9007199254740992)
  /\ Counter.stored_value "orderId" first.2 = 9007199254740992
  /\ second.1 = res_json 200 (JNumber 9007199254740992)
  /\ Counter.stored_value "orderId" second.2 = 9007199254740993.
Proof. cbv zeta. repeat split; vm_compute; reflexivity. Qed.

(** C9, as the route has it.  [initialize] ([POST /counter/{name}]) with
    an integer [startValue] below 1 or above [Number.MAX_SAFE_INTEGER]
    fails with a validation error (400) and leaves the database as it
    was; with [1 <= startValue <= Number.MAX_SAFE_INTEGER] it answers 201
    and leaves exactly [startValue] stored under the name, whatever was
    stored before, and the same call once more answers 201 and leaves the
    same database. *)
Theorem initialize_validates_then_upserts counter startValue db :
  isAlphanumeric counter = true ->
  let r := Counter.router_post counter startValue db in
  (startValue < 1 \/ Counter.MAX_SAFE_INTEGER < startValue ->
     ValidationError r.1 /\ r.2 = db)
  /\ (1 <= startValue <= Counter.MAX_SAFE_INTEGER ->
      r.1 = res_end 201
      /\ r.2 !! counter = Some startValue
      /\ Counter.stored_value counter r.2 = startValue
      /\ Counter.router_post counter startValue r.2 = (res_end 201, r.2)).
Proof.
  intros Hname r. subst r. split.
  - intros Hbad. destruct (counter_post_invalid counter _ db Hbad) as [errors ->].
    split; reflexivity.
  - intros Hok. rewrite (counter_post_eq _ _ _ Hname Hok). cbn [fst snd].
    split; [reflexivity |]. split; [apply lookup_insert_eq |].
    split; [apply stored_value_insert |].
    rewrite (counter_post_eq _ _ _ Hname Hok). by rewrite insert_insert_eq.
Qed.

Lemma initialize_validates_then_upserts_witness :
  let db : gmap string Z := <["orderId" := 7]> ∅ in
  (Counter.router_post "orderId" 0 db).2 = db
  /\ (Counter.router_post "orderId" 1027465 db).2 !! "orderId" = Some 1027465.
Proof.
  intros db.
  destruct (initialize_validates_then_upserts "orderId" 0 db eq_refl) as [Hbad _].
  destruct (initialize_validates_then_upserts "orderId" 1027465 db eq_refl)
    as [_ Hok].
  split.
  - apply Hbad. left. lia.
  - apply Hok. unfold Counter.MAX_SAFE_INTEGER. lia.
Defined.

(** C9 as the specification states it fails above
    [Number.MAX_SAFE_INTEGER]: the start value 9007199254740992 is not
    below 1, and [initialize] refuses it and stores nothing. *)
Lemma initialize_refuses_above_max_safe_integer :
  let startValue := 9007199254740992 in
  let r := Counter.router_post "orderId" startValue ∅ in
  ~ startValue < 1
  /\ r.1 = res_errors ["counter value must be a positive integer"]
  /\ status_of r.1 = Some 400
  /\ r.2 !! "orderId" = None.
Proof. cbv zeta. split; [lia |]. vm_compute. auto. Qed.

Lemma counter_get_times_from counter db n :
  isAlphanumeric counter = true ->
  (Counter.get_times n counter db).1 =
    map (fun i => res_json 200
                    (JNumber (to_double
                                (Counter.stored_value counter db + Z.of_nat i))))
        (seq 1 n).
Proof.
  intros Hname. revert db. induction n as [|n IH]; intros db; [reflexivity |].
  cbn [Counter.get_times fst snd]. rewrite IH, (counter_get_eq _ _ Hname).
  cbn [fst snd]. rewrite stored_value_insert. cbn [seq map]. f_equal.
  rewrite <- (List.seq_shift n 1), List.map_map. apply List.map_ext.
  intros i. do 3 f_equal. lia.
Qed.

(** X1. On a counter with no row, [n] calls of incrementAndGet made one
    after the other answer 1, 2, ..., [n] in this order, for every [n] up
    to [2 ^ 53]; beyond, the call of index [i] answers the double nearest
    to [i]. *)
Theorem sequential_incrementAndGet_counts_up counter db n :
  isAlphanumeric counter = true -> db !! counter = None ->
  (Counter.get_times n counter db).1 =
    map (fun i => res_json 200 (JNumber (to_double (Z.of_nat i)))) (seq 1 n)
  /\ (Z.of_nat n <= 2 ^ 53 ->
      (Counter.get_times n counter db).1 =
        map (fun i => res_json 200 (JNumber (Z.of_nat i))) (seq 1 n)).
Proof.
  intros Hname Hfresh. rewrite (counter_get_times_from _ _ _ Hname).
  unfold Counter.stored_value. rewrite Hfresh. split; [reflexivity |].
  intros Hn. apply List.map_ext_in. intros i Hi. apply List.in_seq in Hi.
  cbn [default from_option id]. rewrite to_double_exact; [done | lia].
Qed.

Lemma sequential_incrementAndGet_counts_up_witness :
  (Counter.get_times 3 "orderId" ∅).1 =
    [res_json 200 (JNumber 1); res_json 200 (JNumber 2); res_json 200 (JNumber 3)].
Proof.
  assert (Z.of_nat 3 <= 2 ^ 53) as Hcalls by (vm_compute; discriminate).
  exact (proj2 (sequential_incrementAndGet_counts_up "orderId" ∅ 3 eq_refl
                  (lookup_empty _)) Hcalls).
Defined.

(** X5. Removing a counter ([DELETE /counter/{name}]) answers 200 whether the
    counter has a row or not and leaves none, so the next incrementAndGet
    answers 1. *)
Theorem remove_counter_then_start_over counter db :
  isAlphanumeric counter = true ->
  let r := Counter.router_delete counter db in
  r.1 = res_end 200
  /\ r.2 !! counter = None
  /\ (Counter.router_get counter r.2).1 = res_json 200 (JNumber 1).
Proof.
  intros Hname r. subst r. unfold Counter.router_delete. rewrite Hname.
  cbn [withMessage has_errors fst snd]. unfold Counter.delete_where_name.
  split; [done |]. split; [apply lookup_delete_eq |].
  rewrite (counter_get_eq _ _ Hname). unfold Counter.stored_value.
  by rewrite lookup_delete_eq.
Qed.

Lemma remove_counter_then_start_over_witness :
  let db : gmap string Z := <["orderId" := 1027467]> ∅ in
  (Counter.router_get "orderId" (Counter.router_delete "orderId" db).2).1
  = res_json 200 (JNumber 1).
Proof.
  intros db.
  exact (proj2 (proj2 (remove_counter_then_start_over "orderId" db eq_refl))).
Defined.

End CounterProperties.

(** ** Queue tables *)

Section QueueTables.
Implicit Types (t : gmap Z string) (r : Z * string) (rows : list (Z * string)).

#[local] Instance position_le_trans : Transitive Queue.position_le.
Proof. intros r1 r2 r3. unfold Queue.position_le. lia. Qed.

#[local] Instance position_le_total : Total Queue.position_le.
Proof. intros r1 r2. unfold Queue.position_le. lia. Qed.

Lemma order_by_position_perm t : Queue.order_by_position t ≡ₚ map_to_list t.
Proof. apply merge_sort_Permutation. Qed.

Lemma order_by_position_length t :
  length (Queue.order_by_position t) = size t.
Proof. by rewrite order_by_position_perm, length_map_to_list. Qed.

Lemma elem_of_order_by_position t p i :
  (p, i) ∈ Queue.order_by_position t ↔ t !! p = Some i.
Proof. by rewrite order_by_position_perm, elem_of_map_to_list. Qed.

Lemma order_by_position_NoDup t :
  NoDup (Queue.position <$> Queue.order_by_position t).
Proof. rewrite order_by_position_perm. apply NoDup_fst_map_to_list. Qed.

Lemma StronglySorted_le_lt rows :
  StronglySorted Queue.position_le rows -> NoDup (Queue.position <$> rows) ->
  StronglySorted Queue.position_lt rows.
Proof.
  induction 1 as [|r rows Hsorted IH Hall]; intros Hnodup; [constructor |].
  apply NoDup_cons in Hnodup as [Hnotin Hnodup]. constructor; [auto |].
  apply Forall_forall. intros r' Hin.
  rewrite Forall_forall in Hall. specialize (Hall r' Hin).
  unfold Queue.position_le, Queue.position_lt in *.
  destruct (decide (Queue.position r = Queue.position r')) as [Heq|]; [| lia].
  exfalso. apply Hnotin. rewrite Heq. by apply list_elem_of_fmap_2.
Qed.

(** The rows come out in ascending position, no position twice. *)
Lemma order_by_position_sorted t :
  StronglySorted Queue.position_lt (Queue.order_by_position t).
Proof.
  apply StronglySorted_le_lt; [| apply order_by_position_NoDup].
  apply StronglySorted_merge_sort; apply _.
Qed.

(** A list of the table's rows in ascending position is the ordered table. *)
Lemma order_by_position_unique t rows :
  rows ≡ₚ map_to_list t -> StronglySorted Queue.position_lt rows ->
  Queue.order_by_position t = rows.
Proof.
  intros Hperm Hsorted.
  apply (StronglySorted_unique_strong Queue.position_lt);
    [| apply order_by_position_sorted | done
     | by rewrite order_by_position_perm].
  intros r1 r2 _ _. unfold Queue.position_lt. lia.
Qed.

(** [DELETE ... WHERE position IN (the first k positions)] leaves the
    rows after the first [k], in their order. *)
Lemma delete_lowest_positions t k :
  Queue.order_by_position
    (Queue.delete_where_position_in
       (Queue.position <$> take k (Queue.order_by_position t)) t)
  = drop k (Queue.order_by_position t).
Proof.
  pose proof (order_by_position_NoDup t) as Hnodup.
  pose proof (order_by_position_sorted t) as Hsorted.
  pose proof (elem_of_order_by_position t) as Hin.
  revert Hnodup Hsorted Hin.
  generalize (Queue.order_by_position t). intros rows Hnodup Hsorted Hin.
  rewrite <- (take_drop k rows) in Hnodup, Hsorted.
  setoid_rewrite <- (take_drop k rows) in Hin.
  rewrite fmap_app in Hnodup. apply NoDup_app in Hnodup as (_ & Hdisj & Hnodup).
  apply order_by_position_unique;
    [| by apply StronglySorted_app_1_r in Hsorted].
  apply NoDup_Permutation;
    [by eapply NoDup_fmap_1 | apply NoDup_map_to_list |].
  intros [p i]. rewrite elem_of_map_to_list.
  unfold Queue.delete_where_position_in. rewrite map_lookup_filter_Some.
  rewrite <- Hin, elem_of_app. split.
  - intros Hdrop. split; [by right |].
    intros Htake. apply (Hdisj _ Htake). by apply (list_elem_of_fmap_2 _ _ (p, i)).
  - intros [[Htake | Hdrop] Hnot]; [| done].
    exfalso. apply Hnot. by apply (list_elem_of_fmap_2 _ _ (p, i)).
Qed.

Lemma delete_lowest_positions_size t k :
  size (Queue.delete_where_position_in
          (Queue.position <$> take k (Queue.order_by_position t)) t)
  = (size t - k)%nat.
Proof.
  rewrite <- order_by_position_length, delete_lowest_positions, length_drop.
  by rewrite order_by_position_length.
Qed.

Lemma delete_lowest_positions_lookup t k p :
  Queue.delete_where_position_in
    (Queue.position <$> take k (Queue.order_by_position t)) t !! p
  = if decide (p ∈ Queue.position <$> take k (Queue.order_by_position t))
    then None else t !! p.
Proof.
  unfold Queue.delete_where_position_in. rewrite map_lookup_filter.
  destruct (t !! p) as [i|]; cbn; [| by case_decide].
  unfold Queue.position at 1. cbn.
  case_decide; [by rewrite option_guard_False by tauto |].
  by rewrite option_guard_True.
Qed.

Lemma LIMIT_take limit rows :
  0 <= limit < 2 ^ 63 ->
  Queue.LIMIT limit rows
  = Some (take (Z.to_nat limit `min` length rows) rows).
Proof.
  intros Hlimit. unfold Queue.LIMIT.
  destruct (Z.leb_spec (2 ^ 63) limit) as [|_]; [lia |].
  destruct (Z.ltb_spec limit 0) as [|_]; [lia |]. f_equal.
  destruct (Nat.min_spec (Z.to_nat limit) (length rows)) as [[_ ->] | [Hle ->]];
    [done |].
  by rewrite !take_ge by lia.
Qed.

Lemma LIMIT_refused limit rows : 2 ^ 63 <= limit -> Queue.LIMIT limit rows = None.
Proof.
  intros Hlimit. unfold Queue.LIMIT.
  by destruct (Z.leb_spec (2 ^ 63) limit) as [_|]; [| lia].
Qed.

(** *** The table a name reads as *)

Lemma resolve_exact name (db : gmap string (gmap Z string)) :
  is_Some (db !! name) -> Queue.resolve name db = Some name.
Proof. intros [t Ht]. unfold Queue.resolve. by rewrite Ht. Qed.

Lemma resolve_Some name (db : gmap string (gmap Z string)) k :
  Queue.resolve name db = Some k ->
  is_Some (db !! k) /\ fold_case k = fold_case name.
Proof.
  unfold Queue.resolve. destruct (db !! name) as [t|] eqn:Ht.
  - intros [= <-]. by rewrite Ht.
  - intros Hhead. apply head_Some_elem_of in Hhead.
    apply list_elem_of_filter in Hhead as [Hfold Hin]. split; [| exact Hfold].
    apply list_elem_of_fmap in Hin as ([k' t'] & -> & Hin).
    apply elem_of_map_to_list in Hin. by exists t'.
Qed.

Lemma no_other_spelling_empty name : Queue.no_other_spelling name ∅.
Proof. intros k Hk. rewrite lookup_empty in Hk. by destruct Hk. Qed.

Lemma no_other_spelling_insert_other name k t
    (db : gmap string (gmap Z string)) :
  (fold_case k = fold_case name -> k = name) ->
  Queue.no_other_spelling name db ->
  Queue.no_other_spelling name (<[k := t]> db).
Proof.
  intros Hk Hspelling k' Hk' Hfold.
  destruct (decide (k' = k)) as [-> | Hne]; [by apply Hk |].
  rewrite lookup_insert_ne in Hk' by done. by apply Hspelling.
Qed.

Lemma resolve_fresh name (db : gmap string (gmap Z string)) :
  Queue.no_other_spelling name db -> db !! name = None ->
  Queue.resolve name db = None.
Proof.
  intros Hspelling Hnone.
  destruct (Queue.resolve name db) as [k|] eqn:Hresolve; [| done].
  destruct (resolve_Some _ _ _ Hresolve) as [[t Hk] Hfold].
  rewrite (Hspelling k) in Hk by eauto. congruence.
Qed.

(** *** The position of a new row *)

Lemma max_position_None t : Queue.max_position t = None ↔ t = ∅.
Proof.
  rewrite <- map_to_list_empty_iff. unfold Queue.max_position.
  destruct (map_to_list t); cbn; split; congruence.
Qed.

Lemma max_position_Some t m :
  Queue.max_position t = Some m ->
  is_Some (t !! m) /\ forall p, is_Some (t !! p) -> p <= m.
Proof.
  unfold Queue.max_position. intros Hmax.
  assert ((exists i, (m, i) ∈ map_to_list t)
          /\ forall r, r ∈ map_to_list t -> Queue.position r <= m) as [Hin Hle].
  { revert m Hmax. induction (map_to_list t) as [|[q x] rows IH]; intros m; cbn;
      [discriminate |].
    unfold Queue.position at 1 2; cbn.
    destruct (foldr _ None rows) as [m'|] eqn:Hrows.
    - destruct (IH m' eq_refl) as [[i Hi] Hle]. intros [= <-]. split.
      + destruct (Z.max_spec q m') as [[_ ->] | [_ ->]];
          [exists i; by right | exists x; by left].
      + intros r' [-> | Hr']%elem_of_cons; [unfold Queue.position; cbn; lia |].
        specialize (Hle r' Hr'). lia.
    - intros [= <-]. destruct rows; [| discriminate]. split.
      + exists x. by left.
      + intros r' [-> | Hr']%elem_of_cons; [done | by apply elem_of_nil in Hr']. }
  split.
  - destruct Hin as [i Hi]. exists i. by apply elem_of_map_to_list.
  - intros p [i Hi]. apply elem_of_map_to_list in Hi. apply (Hle (p, i) Hi).
Qed.

(** A new row is placed after every row of the table. *)
Lemma new_rowid_above t p : is_Some (t !! p) -> p < Queue.new_rowid t.
Proof.
  intros Hp. unfold Queue.new_rowid.
  destruct (Queue.max_position t) as [m|] eqn:Hmax.
  - apply max_position_Some in Hmax as [_ Hle]. specialize (Hle p Hp). lia.
  - apply max_position_None in Hmax. subst t. rewrite lookup_empty in Hp.
    by destruct Hp.
Qed.

Lemma new_rowid_fresh t : t !! Queue.new_rowid t = None.
Proof.
  apply eq_None_not_Some. intros Hsome. apply new_rowid_above in Hsome. lia.
Qed.

(** The next new row is placed one further. *)
Lemma new_rowid_insert t i :
  Queue.new_rowid (<[Queue.new_rowid t := i]> t) = Queue.new_rowid t + 1.
Proof.
  set (p := Queue.new_rowid t). unfold Queue.new_rowid at 1.
  destruct (Queue.max_position (<[p := i]> t)) as [m|] eqn:Hmax.
  - apply max_position_Some in Hmax as [Hm Hle].
    assert (p <= m) by (apply Hle; rewrite lookup_insert_eq; eauto).
    destruct (decide (m = p)) as [-> | Hne]; [done |].
    rewrite lookup_insert_ne in Hm by done.
    apply new_rowid_above in Hm. fold p in Hm. lia.
  - apply max_position_None in Hmax. by apply insert_non_empty in Hmax.
Qed.

Lemma order_by_position_insert_new t i :
  Queue.order_by_position (<[Queue.new_rowid t := i]> t)
  = Queue.order_by_position t ++ [(Queue.new_rowid t, i)].
Proof.
  apply order_by_position_unique.
  - rewrite map_to_list_insert by apply new_rowid_fresh.
    by rewrite <- Permutation_cons_append, order_by_position_perm.
  - apply StronglySorted_app_2;
      [| apply order_by_position_sorted | repeat constructor].
    intros [p x] r Hin ->%list_elem_of_singleton.
    apply elem_of_order_by_position in Hin.
    unfold Queue.position_lt, Queue.position; cbn.
    apply new_rowid_above. eauto.
Qed.

(** [INSERT INTO q (item) VALUES ...] appends the items, in the order of
    the values, at consecutive positions from [new_rowid] on. *)
Lemma insert_values_appends items t :
  Forall (fun text => text <> "") items ->
  exists t',
    Queue.insert_values items t = Some t'
    /\ Queue.order_by_position t' =
        Queue.order_by_position t
        ++ imap (fun n text => (Queue.new_rowid t + Z.of_nat n, text)) items.
Proof.
  intros Hitems. revert t.
  induction Hitems as [|text items Htext _ IH]; intros t; cbn.
  - exists t. by rewrite app_nil_r.
  - unfold Queue.insert_row. apply String.eqb_neq in Htext. rewrite Htext.
    destruct (IH (<[Queue.new_rowid t := text]> t)) as (t' & -> & Horder).
    exists t'. split; [done |].
    rewrite Horder, order_by_position_insert_new, <- app_assoc. cbn.
    rewrite Z.add_0_r. do 2 f_equal. apply imap_ext. intros n x _. cbn.
    rewrite new_rowid_insert. f_equal. lia.
Qed.

Lemma insert_into_eq `{SqlKeywords}
    name items (db : gmap string (gmap Z string)) t t' :
  sql_identifier name = true ->
  items <> [] -> db !! name = Some t ->
  Queue.insert_values items t = Some t' ->
  Queue.insert_into name items db = Some (<[name := t']> db).
Proof.
  intros Hidentifier Hne Ht Hinsert. unfold Queue.insert_into.
  rewrite Hidentifier, (resolve_exact name db) by eauto. cbn [negb].
  destruct items; [done |]. by rewrite Ht, Hinsert.
Qed.

(** The position [new_rowid] continues from: the largest in use, 0 in a
    table without rows. *)
Lemma new_rowid_current_maximum t :
  Queue.new_rowid t = default 0 (Queue.max_position t) + 1.
Proof. unfold Queue.new_rowid. by destruct (Queue.max_position t). Qed.

End QueueTables.

(** ** Queues: the routes *)

Section QueueProperties.
Context `{JsonCodec} `{BodyValidator} `{SqlKeywords}.
Implicit Types (queue : string) (db : gmap string (gmap Z string))
  (t : gmap Z string) (a payloads : list json).

Lemma dbTableExists_Some queue db t :
  db !! queue = Some t -> Queue.dbTableExists queue db = true.
Proof. intros Ht. unfold Queue.dbTableExists, Queue.count_sqlite_master. by rewrite Ht. Qed.

Lemma dbTableExists_None queue db :
  db !! queue = None -> Queue.dbTableExists queue db = false.
Proof. intros Ht. unfold Queue.dbTableExists, Queue.count_sqlite_master. by rewrite Ht. Qed.

Lemma order_by_position_empty : Queue.order_by_position ∅ = [].
Proof. unfold Queue.order_by_position. by rewrite map_to_list_empty. Qed.

Lemma new_rowid_empty : Queue.new_rowid ∅ = 1.
Proof.
  unfold Queue.new_rowid. by rewrite (proj2 (max_position_None ∅) eq_refl).
Qed.

(** Enqueue: the table is created when it is not there, and the texts of
    the items are appended in the order of the array. *)
Lemma queue_post_eq queue a db :
  isAlphanumeric queue = true -> sql_identifier queue = true ->
  Queue.no_other_spelling queue db ->
  notEmpty (JArray a) = true -> a <> [] ->
  Forall (fun v => JSON_stringify v <> "") a ->
  exists t',
    Queue.router_post queue (JArray a) db = (res_end 201, <[queue := t']> db)
    /\ Queue.order_by_position t' =
       Queue.order_by_position (default ∅ (db !! queue))
       ++ imap (fun n v => (Queue.new_rowid (default ∅ (db !! queue)) + Z.of_nat n,
                            JSON_stringify v)) a.
Proof.
  intros Hname Hidentifier Hspelling Hbody Hne Hitems.
  assert (Forall (fun text => text <> "") (JSON_stringify <$> a)) as Htexts
    by by apply Forall_fmap.
  destruct (insert_values_appends _ (default ∅ (db !! queue)) Htexts)
    as (t' & Hinsert & Horder).
  exists t'. rewrite imap_fmap in Horder. split; [| exact Horder].
  assert (JSON_stringify <$> a <> []) as Hne' by by destruct a.
  unfold Queue.router_post. rewrite Hname, Hbody.
  cbn [isArray withMessage app has_errors].
  unfold Queue.create_table_if_not_exists. rewrite Hidentifier.
  destruct (db !! queue) as [t|] eqn:Ht; cbn in Hinsert.
  - rewrite (dbTableExists_Some _ _ _ Ht). cbn [negb default from_option id].
    by rewrite (insert_into_eq _ _ _ _ _ Hidentifier Hne' Ht Hinsert).
  - rewrite (dbTableExists_None _ _ Ht), (resolve_fresh _ _ Hspelling Ht).
    cbn [negb default from_option id].
    rewrite (insert_into_eq _ _ _ _ _ Hidentifier Hne'
               (lookup_insert_eq _ _ _) Hinsert).
    by rewrite insert_insert_eq.
Qed.

(** Enqueue under a name that is no identifier: both statements are
    refused, and nothing is created. *)
Lemma queue_post_no_identifier queue a db :
  isAlphanumeric queue = true -> sql_identifier queue = false ->
  notEmpty (JArray a) = true -> db !! queue = None ->
  Queue.router_post queue (JArray a) db = (next_err, db).
Proof.
  intros Hname Hidentifier Hbody Hnone.
  unfold Queue.router_post. rewrite Hname, Hbody.
  cbn [isArray withMessage app has_errors].
  unfold Queue.create_table_if_not_exists, Queue.insert_into.
  by rewrite Hidentifier, (dbTableExists_None _ _ Hnone).
Qed.

Lemma limit_validates (limit : option Z) :
  1 <= default 1 limit ->
  match limit with Some l => isInt 1 None l | None => true end = true.
Proof.
  destruct limit as [l|]; [| done]. unfold isInt. cbn. intros Hlimit.
  apply Z.leb_le in Hlimit. by rewrite Hlimit.
Qed.

(** Dequeue on a queue that exists. *)
Lemma queue_get_eq queue limit db t payloads :
  isAlphanumeric queue = true -> db !! queue = Some t ->
  1 <= default 1 limit < 2 ^ 63 ->
  Queue.parse_items
    (take (Z.to_nat (default 1 limit) `min` size t) (Queue.order_by_position t))
    = Some payloads ->
  Queue.router_get queue limit db =
    (res_json 200 (JArray payloads),
     <[queue :=
         Queue.delete_where_position_in
           (Queue.position <$>
              take (Z.to_nat (default 1 limit) `min` size t)
                   (Queue.order_by_position t)) t]> db).
Proof.
  intros Hname Ht Hlimit Hparse. unfold Queue.router_get.
  rewrite Hname, (limit_validates _ (proj1 Hlimit)).
  cbn [withMessage app has_errors].
  rewrite (dbTableExists_Some _ _ _ Ht). cbn [negb]. rewrite Ht.
  rewrite LIMIT_take by lia. rewrite order_by_position_length.
  by rewrite Hparse.
Qed.

(** Dequeue with a limit that does not fit the 64 bits: both statements
    are refused, and nothing is removed. *)
Lemma queue_get_refused queue limit db t :
  isAlphanumeric queue = true -> db !! queue = Some t ->
  2 ^ 63 <= limit ->
  Queue.router_get queue (Some limit) db = (next_err, db).
Proof.
  intros Hname Ht Hlimit. unfold Queue.router_get, isInt.
  assert ((1 <=? limit) = true) as -> by (apply Z.leb_le; lia).
  rewrite Hname. cbn [withMessage app has_errors andb].
  rewrite (dbTableExists_Some _ _ _ Ht). cbn [negb]. rewrite Ht.
  cbn [default from_option id]. by rewrite LIMIT_refused.
Qed.

Lemma queue_depth_eq queue db t :
  isAlphanumeric queue = true -> db !! queue = Some t ->
  Queue.router_get_depth queue db =
    (res_json 200 (JNumber (Z.of_nat (size t))), db).
Proof.
  intros Hname Ht. unfold Queue.router_get_depth. rewrite Hname.
  cbn [withMessage has_errors]. rewrite (dbTableExists_Some _ _ _ Ht).
  cbn [negb]. by rewrite Ht.
Qed.

Lemma queue_absent_not_found queue db :
  isAlphanumeric queue = true -> db !! queue = None ->
  (forall limit, 1 <= default 1 limit ->
     Queue.router_get queue limit db = (Queue.not_found queue, db))
  /\ Queue.router_get_peek queue db = (Queue.not_found queue, db)
  /\ Queue.router_get_depth queue db = (Queue.not_found queue, db).
Proof.
  intros Hname Ht. split; [| split].
  - intros limit Hlimit. unfold Queue.router_get.
    rewrite Hname, (limit_validates _ Hlimit). cbn [withMessage app has_errors].
    by rewrite (dbTableExists_None _ _ Ht).
  - unfold Queue.router_get_peek. rewrite Hname. cbn [withMessage has_errors].
    by rewrite (dbTableExists_None _ _ Ht).
  - unfold Queue.router_get_depth. rewrite Hname. cbn [withMessage has_errors].
    by rewrite (dbTableExists_None _ _ Ht).
Qed.

(** Peek never writes. *)
Lemma queue_peek_database queue db : (Queue.router_get_peek queue db).2 = db.
Proof.
  unfold Queue.router_get_peek.
  repeat match goal with
         | |- context [if ?b then _ else _] => destruct b
         | |- context [match ?x with _ => _ end] => destruct x
         end; reflexivity.
Qed.

(** The texts that enqueue stores parse back to the items of the array. *)
Lemma parse_items_stored (g : nat -> json -> Z * string) a :
  (forall n v, Queue.item (g n v) = JSON_stringify v) ->
  Forall serializable a ->
  Queue.parse_items (imap g a) = Some a.
Proof.
  intros Hg Ha. revert g Hg. unfold Queue.parse_items.
  induction Ha as [|v a [_ Hv] _ IH]; intros g Hg; [reflexivity |].
  rewrite imap_cons. cbn. rewrite Hg, Hv. cbn.
  rewrite (IH (g ∘ S)); [done |]. intros n w. apply Hg.
Qed.

Lemma serializable_text a :
  Forall serializable a -> Forall (fun v => JSON_stringify v <> "") a.
Proof. intros Ha. eapply Forall_impl; [exact Ha |]. by intros v [Hv _]. Qed.

(** C2, within the 64 bits of a limit.  On a queue that exists with [n]
    rows, under a name that SQLite reads as an identifier, dequeue ([GET /queue/{name}?limit=...], the limit 1 when none is
    given) with a limit of at least 1 and below [2 ^ 63] answers the
    payloads of the first [k = min(limit, n)] rows in ascending position,
    in this order, and removes these rows and no other: the rows that
    remain are the rows after the first [k], and depth then answers
    [n - k].  So where [q] is a name that SQLite reads as an identifier
    and no table is named [q] in any spelling, enqueue of [[a, b, c]] (a
    body the validation lets through) followed by dequeue with limit 3
    answers [[a, b, c]] and leaves depth 0; a body [[a, b, c]] that the
    validation refuses is answered 400 and enqueues nothing. *)
Theorem dequeue_returns_lowest_positions queue limit db t payloads :
  isAlphanumeric queue = true ->
  sql_identifier queue = true ->
  db !! queue = Some t ->
  1 <= default 1 limit < 2 ^ 63 ->
  let n := size t in
  let k := (Z.to_nat (default 1%Z limit) `min` n)%nat in
  let lowest := take k (Queue.order_by_position t) in
  Queue.parse_items lowest = Some payloads ->
  let r := Queue.router_get queue limit db in
  r.1 = res_json 200 (JArray payloads)
  /\ (exists t',
        r.2 = <[queue := t']> db
        /\ Queue.order_by_position t' = drop k (Queue.order_by_position t)
        /\ (forall p, t' !! p =
                      if decide (p ∈ Queue.position <$> lowest) then None
                      else t !! p)
        /\ size t' = (n - k)%nat)
  /\ (Queue.router_get_depth queue r.2).1
     = res_json 200 (JNumber (Z.of_nat (n - k)))
  /\ StronglySorted Queue.position_lt (Queue.order_by_position t)
  /\ Queue.order_by_position t ≡ₚ map_to_list t
  /\ (forall (a b c : json) db0,
        serializable a -> serializable b -> serializable c ->
        notEmpty (JArray [a; b; c]) = true ->
        sql_identifier "q" = true ->
        Queue.no_other_spelling "q" db0 ->
        db0 !! "q" = None ->
        let e := Queue.router_post "q" (JArray [a; b; c]) db0 in
        let d := Queue.router_get "q" (Some 3) e.2 in
        e.1 = res_end 201
        /\ d.1 = res_json 200 (JArray [a; b; c])
        /\ (Queue.router_get_depth "q" d.2).1 = res_json 200 (JNumber 0))
  /\ (forall (a b c : json) db0,
        notEmpty (JArray [a; b; c]) = false ->
        let e := Queue.router_post "q" (JArray [a; b; c]) db0 in
        ValidationError e.1 /\ e.2 = db0).
Proof.
  intros Hname _ Ht Hlimit n k lowest Hparse r. subst n k lowest r.
  rewrite (queue_get_eq _ _ _ _ _ Hname Ht Hlimit Hparse). cbn [fst snd].
  split; [reflexivity |]. split.
  { eexists. split; [reflexivity |]. split; [apply delete_lowest_positions |].
    split; [apply delete_lowest_positions_lookup |].
    apply delete_lowest_positions_size. }
  split.
  { rewrite (queue_depth_eq _ _ _ Hname (lookup_insert_eq _ _ _)).
    by rewrite delete_lowest_positions_size. }
  split; [apply order_by_position_sorted |].
  split; [apply order_by_position_perm |].
  split; cycle 1.
  { intros a b c db0 Hbody. cbv zeta. unfold Queue.router_post.
    rewrite Hbody. by cbn. }
  intros a b c db0 [Ha Ha'] [Hb Hb'] [Hc Hc'] Hbody Hidentifier Hspelling
    Hfresh. cbv zeta.
  destruct (queue_post_eq "q" [a; b; c] db0 eq_refl Hidentifier Hspelling Hbody)
    as (t' & -> & Horder); [done | by repeat constructor |].
  rewrite Hfresh in Horder. cbn [default from_option] in Horder.
  rewrite order_by_position_empty, new_rowid_empty in Horder.
  cbn in Horder. cbn [fst snd].
  assert (size t' = 3%nat) as Hsize
    by by rewrite <- order_by_position_length, Horder.
  split; [reflexivity |].
  rewrite (queue_get_eq "q" (Some 3) _ t' [a; b; c] eq_refl
             (lookup_insert_eq _ _ _)); cycle 1.
  { cbn. lia. }
  { rewrite Hsize, Horder.
    assert ((Z.to_nat (default 1%Z (Some 3%Z)) `min` 3)%nat = 3%nat) as ->
      by reflexivity.
    unfold Queue.parse_items, Queue.item. cbn.
    rewrite Ha'. cbn. rewrite Hb'. cbn. by rewrite Hc'. }
  cbn [fst snd]. split; [reflexivity |].
  rewrite (queue_depth_eq "q" _ _ eq_refl (lookup_insert_eq _ _ _)).
  cbn [fst]. by rewrite delete_lowest_positions_size, Hsize.
Qed.

Lemma no_other_spelling_insert queue db t :
  Queue.no_other_spelling queue db ->
  Queue.no_other_spelling queue (<[queue := t]> db).
Proof.
  intros Hspelling k Hk Hfold. destruct (decide (k = queue)) as [-> | Hne];
    [done |].
  rewrite lookup_insert_ne in Hk by done. by apply Hspelling.
Qed.

(** C3, as the table is declared.  For a queue name that SQLite reads as
    an identifier and that names no table in another spelling, enqueue
    ([POST /queue/{name}]) of a non-empty array that the validation lets
    through gives its items consecutive, strictly increasing positions
    that continue from the largest position [m] held by a row now in the
    queue (0 when the queue is new or holds no row), so every new position
    is above the position of every row in the queue and the new rows
    follow the old ones in ascending position; the rows already there keep
    their positions and items.  The positions of rows that were removed
    are not remembered: after a dequeue that takes every row of the
    queue, whatever positions they held, the next enqueue gives its items
    the positions 1, 2, ... again. *)
Theorem enqueue_continues_from_current_maximum queue a db :
  isAlphanumeric queue = true ->
  sql_identifier queue = true ->
  Queue.no_other_spelling queue db ->
  notEmpty (JArray a) = true ->
  a <> [] ->
  Forall (fun v => JSON_stringify v <> "") a ->
  let t := default ∅ (db !! queue) in
  let m := default 0 (Queue.max_position t) in
  let r := Queue.router_post queue (JArray a) db in
  r.1 = res_end 201
  /\ (forall p, is_Some (t !! p) -> p <= m)
  /\ (t <> ∅ -> is_Some (t !! m))
  /\ (t = ∅ -> m = 0)
  /\ (exists t',
        r.2 = <[queue := t']> db
        /\ Queue.order_by_position t' =
           Queue.order_by_position t
           ++ imap (fun i v => (m + 1 + Z.of_nat i, JSON_stringify v)) a
        /\ (forall p, is_Some (t !! p) -> t' !! p = t !! p)
        /\ (forall i v,
              a !! i = Some v ->
              t' !! (m + 1 + Z.of_nat i) = Some (JSON_stringify v)))
  /\ (forall t0 limit payloads,
        db !! queue = Some t0 ->
        1 <= limit < 2 ^ 63 ->
        Z.of_nat (size t0) <= limit ->
        Queue.parse_items (Queue.order_by_position t0) = Some payloads ->
        let d := Queue.router_get queue (Some limit) db in
        let r' := Queue.router_post queue (JArray a) d.2 in
        d.1 = res_json 200 (JArray payloads)
        /\ r'.1 = res_end 201
        /\ exists t',
             r'.2 !! queue = Some t'
             /\ Queue.order_by_position t' =
                imap (fun i v => (1 + Z.of_nat i, JSON_stringify v)) a
             /\ forall p, 1 <= p <= Z.of_nat (length a) -> is_Some (t' !! p)).
Proof.
  intros Hname Hidentifier Hspelling Hbody Hne Hitems t m r. subst r.
  destruct (queue_post_eq queue a db Hname Hidentifier Hspelling Hbody Hne
              Hitems) as (t' & -> & Horder).
  fold t in Horder. rewrite new_rowid_current_maximum in Horder. fold m in Horder.
  split; [reflexivity |]. split.
  { intros p Hp. pose proof (new_rowid_above t p Hp) as Hlt.
    rewrite new_rowid_current_maximum in Hlt. subst m. lia. }
  split.
  { intros Hrows. subst m.
    destruct (Queue.max_position t) as [m|] eqn:Hmax.
    - by destruct (max_position_Some _ _ Hmax).
    - by apply max_position_None in Hmax. }
  split.
  { intros ->. subst m. by rewrite (proj2 (max_position_None ∅) eq_refl). }
  split.
  { exists t'. split; [reflexivity |]. split; [exact Horder |]. split.
    - intros p [i Hp]. rewrite Hp. apply elem_of_order_by_position.
      rewrite Horder. apply elem_of_app. left.
      by apply elem_of_order_by_position.
    - intros i v Hv. apply elem_of_order_by_position.
      rewrite Horder. apply elem_of_app. right.
      apply elem_of_lookup_imap. by exists i, v. }
  intros t0 limit payloads Ht0 Hlimit Hall Hparse. cbv zeta.
  assert ((Z.to_nat (default 1%Z (Some limit)) `min` size t0)%nat = size t0)
    as Hk by (cbn; lia).
  rewrite (queue_get_eq queue (Some limit) db t0 payloads Hname Ht0 Hlimit);
    cycle 1.
  { by rewrite Hk, <- order_by_position_length, firstn_all. }
  cbn [fst snd]. split; [reflexivity |].
  set (t1 := Queue.delete_where_position_in _ t0).
  assert (t1 = ∅) as Hempty.
  { apply map_size_empty_inv. subst t1.
    rewrite delete_lowest_positions_size, Hk. lia. }
  destruct (queue_post_eq queue a (<[queue := t1]> db) Hname Hidentifier
              (no_other_spelling_insert _ _ _ Hspelling) Hbody Hne Hitems)
    as (t2 & -> & Horder2).
  rewrite lookup_insert_eq, Hempty in Horder2. cbn [default from_option id] in Horder2.
  rewrite order_by_position_empty, new_rowid_empty, app_nil_l in Horder2.
  split; [reflexivity |]. exists t2. cbn [snd].
  split; [apply lookup_insert_eq |]. split; [exact Horder2 |].
  intros p Hp.
  destruct (lookup_lt_is_Some_2 a (Z.to_nat (p - 1))) as [v Hv]; [lia |].
  exists (JSON_stringify v). apply elem_of_order_by_position.
  rewrite Horder2. apply elem_of_lookup_imap. exists (Z.to_nat (p - 1)), v.
  split; [f_equal; lia | exact Hv].
Qed.

(** X3. For a queue name that SQLite reads as an identifier and that
    names no table in another spelling, enqueue of a non-empty array that
    the validation lets through takes a queue that exists with [n] items
    to [n] plus the number of items of the array, and makes a queue of
    that many items when there was none. *)
Theorem enqueue_adds_to_depth queue a db :
  isAlphanumeric queue = true ->
  sql_identifier queue = true ->
  Queue.no_other_spelling queue db ->
  notEmpty (JArray a) = true ->
  a <> [] ->
  Forall (fun v => JSON_stringify v <> "") a ->
  let n := size (default ∅ (db !! queue)) in
  let r := Queue.router_post queue (JArray a) db in
  r.1 = res_end 201
  /\ (Queue.router_get_depth queue r.2).1
     = res_json 200 (JNumber (Z.of_nat (n + length a))).
Proof.
  intros Hname Hidentifier Hspelling Hbody Hne Hitems n r. subst n r.
  destruct (queue_post_eq queue a db Hname Hidentifier Hspelling Hbody Hne
              Hitems) as (t' & -> & Horder).
  split; [reflexivity |]. cbn [snd].
  rewrite (queue_depth_eq _ _ _ Hname (lookup_insert_eq _ _ _)). cbn [fst].
  rewrite <- (order_by_position_length t'), Horder, length_app, length_imap.
  by rewrite order_by_position_length.
Qed.

(** X4. First in, first out: where the queue name is one that SQLite
    reads as an identifier and no table is named so in any spelling,
    enqueue of a non-empty array of serializable items that the validation
    lets through, followed by dequeue with the number of items as limit,
    answers the array, in its order, and leaves depth 0. *)
Theorem enqueue_then_dequeue_all queue a db :
  isAlphanumeric queue = true ->
  sql_identifier queue = true ->
  Queue.no_other_spelling queue db ->
  notEmpty (JArray a) = true ->
  a <> [] ->
  Z.of_nat (length a) < 2 ^ 63 ->
  Forall serializable a ->
  db !! queue = None ->
  let e := Queue.router_post queue (JArray a) db in
  let d := Queue.router_get queue (Some (Z.of_nat (length a))) e.2 in
  e.1 = res_end 201
  /\ d.1 = res_json 200 (JArray a)
  /\ (Queue.router_get_depth queue d.2).1 = res_json 200 (JNumber 0).
Proof.
  intros Hname Hidentifier Hspelling Hbody Hne Hlength Ha Hfresh. cbv zeta.
  destruct (queue_post_eq queue a db Hname Hidentifier Hspelling Hbody Hne
              (serializable_text _ Ha)) as (t' & -> & Horder).
  rewrite Hfresh in Horder. cbn [default from_option] in Horder.
  rewrite order_by_position_empty, app_nil_l in Horder. cbn [fst snd].
  assert (size t' = length a) as Hsize
    by by rewrite <- order_by_position_length, Horder, length_imap.
  assert (1 <= default 1 (Some (Z.of_nat (length a))) < 2 ^ 63) as Hlimit
    by (destruct a; [done | cbn in *; lia]).
  split; [reflexivity |].
  rewrite (queue_get_eq queue _ _ t' a Hname (lookup_insert_eq _ _ _) Hlimit);
    cycle 1.
  { change (default 1 (Some (Z.of_nat (length a)))) with (Z.of_nat (length a)).
    rewrite Nat2Z.id, Hsize, Nat.min_id.
    rewrite <- Hsize, <- order_by_position_length, firstn_all, Horder.
    by apply parse_items_stored. }
  cbn [fst snd]. split; [reflexivity |].
  rewrite (queue_depth_eq queue _ _ Hname (lookup_insert_eq _ _ _)). cbn [fst].
  rewrite delete_lowest_positions_size.
  change (default 1 (Some (Z.of_nat (length a)))) with (Z.of_nat (length a)).
  rewrite Nat2Z.id, Hsize, Nat.min_id, Nat.sub_diag. reflexivity.
Qed.

(** C6, within the 64 bits of a limit.  For a queue name, dequeue (with a
    limit of at least 1), peek and depth answer 404 exactly when
    [sqlite_master] holds no table of that name; on a queue that exists
    under a name that SQLite reads as an identifier and holds no row,
    depth answers 0, peek answers the empty array, and dequeue answers the
    empty array when its limit is below [2 ^ 63]. *)
Theorem not_found_iff_no_table queue limit db :
  isAlphanumeric queue = true ->
  1 <= default 1 limit ->
  (NotFound (Queue.router_get queue limit db).1 <-> db !! queue = None)
  /\ (NotFound (Queue.router_get_peek queue db).1 <-> db !! queue = None)
  /\ (NotFound (Queue.router_get_depth queue db).1 <-> db !! queue = None)
  /\ (db !! queue = Some ∅ ->
      sql_identifier queue = true ->
      (default 1 limit < 2 ^ 63 ->
       (Queue.router_get queue limit db).1 = res_json 200 (JArray []))
      /\ (Queue.router_get_depth queue db).1 = res_json 200 (JNumber 0)
      /\ (Queue.router_get_peek queue db).1 = res_json 200 (JArray [])).
Proof.
  intros Hname Hlimit. pose proof (limit_validates _ Hlimit) as Hvalid.
  destruct (db !! queue) as [t|] eqn:Ht.
  - split; [| split; [| split]].
    + split; [| done]. unfold NotFound, Queue.router_get.
      rewrite Hname, Hvalid. cbn [withMessage app has_errors].
      rewrite (dbTableExists_Some _ _ _ Ht), Ht. cbn [negb].
      destruct (Queue.LIMIT _ _); [| cbn; discriminate].
      destruct (Queue.parse_items _); cbn; discriminate.
    + split; [| done]. unfold NotFound, Queue.router_get_peek.
      rewrite Hname. cbn [withMessage has_errors].
      rewrite (dbTableExists_Some _ _ _ Ht), Ht. cbn [negb].
      destruct (Queue.LIMIT _ _) as [rows|]; [| cbn; discriminate].
      destruct (head _) as [row|]; [| cbn; discriminate].
      destruct (JSON_parse _) as [payload|]; [| cbn; discriminate].
      destruct (Queue.new_Array _); cbn; discriminate.
    + split; [| done]. rewrite (queue_depth_eq _ _ _ Hname Ht). discriminate.
    + intros [= ->] _. split; [| split].
      * intros Hfits. rewrite (queue_get_eq _ _ _ _ [] Hname Ht (conj Hlimit Hfits)).
        -- reflexivity.
        -- by rewrite order_by_position_empty, take_nil.
      * by rewrite (queue_depth_eq _ _ _ Hname Ht).
      * unfold Queue.router_get_peek. rewrite Hname.
        cbn [withMessage has_errors].
        rewrite (dbTableExists_Some _ _ _ Ht), Ht. cbn [negb].
        by rewrite order_by_position_empty.
  - destruct (queue_absent_not_found _ _ Hname Ht) as (Hget & Hpeek & Hdepth).
    rewrite (Hget _ Hlimit), Hpeek, Hdepth.
    repeat split; try done.
Qed.

(** C7. For a queue name and whatever the database holds, clear
    ([DELETE /queue/{name}]) answers 200 and leaves no table of that name,
    the other queues as they were; depth on that name then answers 404. *)
Theorem clear_always_succeeds queue db :
  isAlphanumeric queue = true ->
  let r := Queue.router_delete queue db in
  r.1 = res_end 200
  /\ r.2 !! queue = None
  /\ r.2 = delete queue db
  /\ NotFound (Queue.router_get_depth queue r.2).1.
Proof.
  intros Hname r.
  assert (r = (res_end 200, delete queue db)) as ->.
  { subst r. unfold Queue.router_delete, Queue.drop_table. rewrite Hname.
    cbn [withMessage has_errors].
    destruct (db !! queue) as [t|] eqn:Ht.
    - by rewrite (dbTableExists_Some _ _ _ Ht).
    - by rewrite (dbTableExists_None _ _ Ht), delete_id. }
  cbn [fst snd]. split; [done |]. split; [apply lookup_delete_eq |].
  split; [done |].
  destruct (queue_absent_not_found queue (delete queue db) Hname
              (lookup_delete_eq _ _)) as (_ & _ & ->).
  reflexivity.
Qed.

(** C10. On a queue that exists, any number of peek calls
    ([GET /queue/{name}/peek]) leaves the database as it was: the table of
    the queue holds the same items at the same positions, and depth answers
    the same number after the calls as before. *)
Theorem peek_is_read_only queue db t n :
  isAlphanumeric queue = true ->
  db !! queue = Some t ->
  let db' := Queue.peek_times n queue db in
  db' = db
  /\ db' !! queue = Some t
  /\ (Queue.router_get_depth queue db).1
     = res_json 200 (JNumber (Z.of_nat (size t)))
  /\ (Queue.router_get_depth queue db').1 = (Queue.router_get_depth queue db).1.
Proof.
  intros Hname Ht db'.
  assert (db' = db) as ->.
  { subst db'. induction n as [|n IH]; [reflexivity |].
    cbn [Queue.peek_times]. by rewrite queue_peek_database. }
  split; [done |]. split; [done |]. split; [| done].
  by rewrite (queue_depth_eq _ _ _ Hname Ht).
Qed.

End QueueProperties.

(** ** Queues: what peek answers *)

Section PeekProperties.
Context `{JsonCodec}.

Lemma order_by_position_head (t : gmap Z string) :
  head <$> Queue.LIMIT 1 (Queue.order_by_position t)
  = Some (head (Queue.order_by_position t)).
Proof.
  rewrite LIMIT_take by lia. by destruct (Queue.order_by_position t).
Qed.

(** X2. On a queue that exists, peek answers the empty array when the
    queue holds no row, and the one-element array of the payload of the row
    at the lowest position when that payload is not a number. *)
Theorem peek_wraps_what_is_no_number
    (queue : string) (db : gmap string (gmap Z string)) (t : gmap Z string) :
  isAlphanumeric queue = true ->
  db !! queue = Some t ->
  (size t = 0%nat ->
     (Queue.router_get_peek queue db).1 = res_json 200 (JArray []))
  /\ (forall row rest payload,
       Queue.order_by_position t = row :: rest ->
       JSON_parse (Queue.item row) = Some payload ->
       (forall n, payload <> JNumber n) ->
       (Queue.router_get_peek queue db).1 = res_json 200 (JArray [payload])).
Proof.
  intros Hname Ht.
  assert (Queue.router_get_peek queue db =
          match head (Queue.order_by_position t) with
          | None => (res_json 200 (JArray []), db)
          | Some row =>
            match JSON_parse (Queue.item row) with
            | None => (uncaught_exception, db)
            | Some payload =>
              match Queue.new_Array payload with
              | None => (uncaught_exception, db)
              | Some a => (res_json 200 (JArray a), db)
              end
            end
          end) as ->.
  { unfold Queue.router_get_peek. rewrite Hname. cbn [withMessage has_errors].
    rewrite (dbTableExists_Some _ _ _ Ht), Ht. cbn [negb].
    pose proof (order_by_position_head t) as Hhead.
    destruct (Queue.LIMIT 1 _) as [rows|]; [| discriminate].
    injection Hhead as ->. reflexivity. }
  split.
  - intros Hsize. apply map_size_empty_inv in Hsize as ->.
    by rewrite order_by_position_empty.
  - intros row rest payload -> Hparse Hnumber. cbn [head]. rewrite Hparse.
    destruct payload; try reflexivity. by destruct (Hnumber n).
Qed.

End PeekProperties.

(** ** Maps *)

Section MapProperties.
Context `{JsonCodec} `{BodyValidator}.
Implicit Types (key : string) (db : gmap string string).

Lemma map_get_eq key db :
  isAlphanumeric key = true ->
  Maps.router_get key db =
    match db !! key with
    | None =>
      (res_json 404 (JObject [("key", JString key);
                              ("message", JString "Map key was not found")]), db)
    | Some value =>
      match JSON_parse value with
      | Some v => (res_json 200 v, db)
      | None => (next_err, db)
      end
    end.
Proof.
  intros Hname. unfold Maps.router_get, Maps.select_value. by rewrite Hname.
Qed.

(** C8, as the route validates the body.  For an alphanumeric key and a
    serializable value: when the body validation [notEmpty()] refuses the
    value (the route's comment: null, the empty string, the empty array),
    put ([POST /map/{name}]) fails with a validation error (400) and
    leaves the database as it was; otherwise put answers 201 whatever the
    key held before and leaves the text of the value under the key, and get
    ([GET /map/{name}]) then answers the value.  Get answers 404 exactly
    when the key has no row. *)
Theorem put_then_get_returns_value key v db :
  isAlphanumeric key = true ->
  serializable v ->
  let r := Maps.router_post key v db in
  (notEmpty v = false -> ValidationError r.1 /\ r.2 = db)
  /\ (notEmpty v = true ->
      r.1 = res_end 201
      /\ r.2 = <[key := JSON_stringify v]> db
      /\ (Maps.router_get key r.2).1 = res_json 200 v)
  /\ (forall db', NotFound (Maps.router_get key db').1 <-> db' !! key = None).
Proof.
  intros Hname [Htext Hparse] r. split; [| split].
  - intros Hbody. subst r. unfold Maps.router_post. by rewrite Hname, Hbody.
  - intros Hbody.
    assert (r = (res_end 201, <[key := JSON_stringify v]> db)) as ->.
    { subst r. unfold Maps.router_post, Maps.insert_or_replace.
      rewrite Hname, Hbody, (isAlphanumeric_nonempty _ Hname).
      apply String.eqb_neq in Htext. by rewrite Htext. }
    cbn [fst snd]. split; [done |]. split; [done |].
    by rewrite (map_get_eq _ _ Hname), lookup_insert_eq, Hparse.
  - intros db'. rewrite (map_get_eq _ _ Hname). unfold NotFound.
    destruct (db' !! key) as [value|]; [| done].
    destruct (JSON_parse value); cbn; split; discriminate.
Qed.

(** X6. Removing a key ([DELETE /map/{name}]) answers 200 whether the key has
    a row or not, and get on the key then answers 404. *)
Theorem remove_key_then_not_found key db :
  isAlphanumeric key = true ->
  let r := Maps.router_delete key db in
  r.1 = res_end 200
  /\ r.2 = delete key db
  /\ NotFound (Maps.router_get key r.2).1.
Proof.
  intros Hname r. subst r. unfold Maps.router_delete. rewrite Hname.
  cbn [withMessage has_errors fst snd]. unfold Maps.delete_where_name.
  split; [done |]. split; [done |].
  by rewrite (map_get_eq _ _ Hname), lookup_delete_eq.
Qed.

End MapProperties.

(** * Runs on the JSON text codec *)

Section Runs.
#[local] Existing Instance JsonText.codec.
#[local] Existing Instance notEmpty_as_commented.
#[local] Existing Instance sqlite_keywords.

Lemma vin_database_spelling name :
  (fold_case "vin" = fold_case name -> "vin" = name) ->
  Queue.no_other_spelling name vin_database.
Proof.
  intros Hvin. apply no_other_spelling_insert_other; [exact Hvin |].
  apply no_other_spelling_empty.
Qed.

Lemma put_then_get_returns_value_witness :
  let v := JObject [("firstName", JString "John"); ("registered", JBool true)] in
  let db : gmap string string := <["user1" := "99"]> ∅ in
  notEmpty v = true
  /\ serializable v
  /\ (Maps.router_get "user1" (Maps.router_post "user1" v db).2).1
     = res_json 200 v.
Proof.
  intros v db.
  assert (serializable v) as Hv by (split; [vm_compute; discriminate | reflexivity]).
  split; [reflexivity |]. split; [exact Hv |].
  assert (notEmpty v = true) as Hbody by reflexivity.
  destruct (put_then_get_returns_value "user1" v db eq_refl Hv)
    as (_ & Hput & _).
  destruct (Hput Hbody) as (_ & _ & Hget). exact Hget.
Defined.

(** C8 as the specification states it fails on an empty value: the empty
    string is serializable, the validation refuses it as the route's
    comment says, and put answers 400 and stores nothing. *)
Lemma put_refuses_the_empty_string :
  let v := JString "" in
  let r := Maps.router_post "user1" v ∅ in
  serializable v
  /\ notEmpty v = false
  /\ r.1 = res_errors ["map value cannot be null or empty"]
  /\ status_of r.1 = Some 400
  /\ r.2 !! "user1" = None.
Proof.
  cbv zeta. split; [split; [vm_compute; discriminate | reflexivity] |].
  vm_compute. auto.
Qed.

Lemma dequeue_returns_lowest_positions_witness :
  let payloads := [JString "VIN1"; JString "VIN2"] in
  let r := Queue.router_get "vin" (Some 2) vin_database in
  vin_database !! "vin" = Some vin_table
  /\ Queue.parse_items (take 2 (Queue.order_by_position vin_table))
     = Some payloads
  /\ r.1 = res_json 200 (JArray payloads)
  /\ (Queue.router_get_depth "vin" r.2).1 = res_json 200 (JNumber 1).
Proof.
  intros payloads r.
  assert (vin_database !! "vin" = Some vin_table) as Hlookup by reflexivity.
  assert (Queue.parse_items (take 2 (Queue.order_by_position vin_table))
          = Some payloads) as Hparse by reflexivity.
  assert (1 <= default 1 (Some 2) < 2 ^ 63) as Hlimit by (cbn; lia).
  assert (sql_identifier "vin" = true) as Hidentifier by reflexivity.
  destruct (dequeue_returns_lowest_positions "vin" (Some 2) vin_database
              vin_table payloads eq_refl Hidentifier Hlookup Hlimit Hparse)
    as (Hresponse & _ & Hdepth & _).
  split; [exact Hlookup |]. split; [exact Hparse |].
  split; [exact Hresponse | exact Hdepth].
Defined.

(** C2 as the specification states it fails at a limit that does not fit
    the 64 bits: the limit 9223372036854775808 is at least 1 and passes
    the validation, the queue holds three items, and dequeue answers 500
    and removes nothing. *)
Lemma dequeue_fails_at_limit_2_63 :
  let limit := 9223372036854775808 in
  let r := Queue.router_get "vin" (Some limit) vin_database in
  isInt 1 None limit = true
  /\ vin_database !! "vin" = Some vin_table
  /\ size vin_table = 3%nat
  /\ r.1 = next_err
  /\ status_of r.1 = Some 500
  /\ r.2 = vin_database.
Proof.
  cbv zeta. split; [reflexivity |]. split; [reflexivity |].
  split; [reflexivity |].
  rewrite (queue_get_refused "vin" _ vin_database vin_table eq_refl eq_refl)
    by (vm_compute; discriminate).
  by repeat split.
Qed.

Lemma enqueue_continues_from_current_maximum_witness :
  let a := [JNumber 99; JString "hello world"] in
  let r := Queue.router_post "vin" (JArray a) vin_database in
  Forall (fun v => JSON_stringify v <> "") a
  /\ sql_identifier "vin" = true
  /\ Queue.no_other_spelling "vin" vin_database
  /\ Queue.max_position vin_table = Some 7
  /\ r.1 = res_end 201
  /\ exists t',
       r.2 = <["vin" := t']> vin_database
       /\ Queue.order_by_position t' =
          Queue.order_by_position vin_table
          ++ [(8, JSON_stringify (JNumber 99));
              (9, JSON_stringify (JString "hello world"))].
Proof.
  intros a r.
  assert (Forall (fun v => JSON_stringify v <> "") a) as Hitems
    by (repeat constructor; vm_compute; discriminate).
  assert (a <> []) as Hne by discriminate.
  assert (notEmpty (JArray a) = true) as Hbody by reflexivity.
  assert (sql_identifier "vin" = true) as Hidentifier by reflexivity.
  assert (Queue.no_other_spelling "vin" vin_database) as Hspelling
    by by apply vin_database_spelling.
  destruct (enqueue_continues_from_current_maximum "vin" a vin_database
              eq_refl Hidentifier Hspelling Hbody Hne Hitems)
    as (Hresponse & _ & _ & _ & (t' & Hdb & Horder & _) & _).
  split; [exact Hitems |]. split; [exact Hidentifier |].
  split; [exact Hspelling |]. split; [reflexivity |].
  split; [exact Hresponse |]. exists t'. split; [exact Hdb | exact Horder].
Defined.

(** C3 as the specification states it fails once a queue has been
    emptied: the item of the first enqueue is stored at position 1, dequeue
    removes it and the queue stays, and the item of the next enqueue is
    stored at position 1 again. *)
Lemma enqueue_reuses_a_position_after_dequeue :
  let db1 := (Queue.router_post "q" (JArray [JString "a"]) ∅).2 in
  let dequeue := Queue.router_get "q" None db1 in
  let db2 := dequeue.2 in
  let db3 := (Queue.router_post "q" (JArray [JString "b"]) db2).2 in
  Queue.order_by_position <$> db1 !! "q"
    = Some [(1, JSON_stringify (JString "a"))]
  /\ dequeue.1 = res_json 200 (JArray [JString "a"])
  /\ db2 !! "q" = Some ∅
  /\ Queue.order_by_position <$> db3 !! "q"
     = Some [(1, JSON_stringify (JString "b"))].
Proof. cbv zeta. repeat split; vm_compute; reflexivity. Qed.

Lemma enqueue_adds_to_depth_witness :
  let a := [JNumber 99; JString "hello world"] in
  (Queue.router_get_depth "vin"
     (Queue.router_post "vin" (JArray a) vin_database).2).1
  = res_json 200 (JNumber 5).
Proof.
  intros a.
  assert (Forall (fun v => JSON_stringify v <> "") a) as Hitems
    by (repeat constructor; vm_compute; discriminate).
  assert (a <> []) as Hne by discriminate.
  assert (notEmpty (JArray a) = true) as Hbody by reflexivity.
  assert (sql_identifier "vin" = true) as Hidentifier by reflexivity.
  assert (Queue.no_other_spelling "vin" vin_database) as Hspelling
    by by apply vin_database_spelling.
  exact (proj2 (enqueue_adds_to_depth "vin" a vin_database eq_refl
                  Hidentifier Hspelling Hbody Hne Hitems)).
Defined.

Lemma enqueue_then_dequeue_all_witness :
  let a := [JString "VIN1"; JNumber 2; JArray [JBool true; JNull]] in
  let e := Queue.router_post "orders" (JArray a) vin_database in
  Forall serializable a
  /\ sql_identifier "orders" = true
  /\ Queue.no_other_spelling "orders" vin_database
  /\ (Queue.router_get "orders" (Some 3) e.2).1 = res_json 200 (JArray a).
Proof.
  intros a e.
  assert (Forall serializable a) as Ha
    by (repeat constructor; vm_compute; discriminate).
  assert (a <> []) as Hne by discriminate.
  assert (notEmpty (JArray a) = true) as Hbody by reflexivity.
  assert (sql_identifier "orders" = true) as Hidentifier by reflexivity.
  assert (Queue.no_other_spelling "orders" vin_database) as Hspelling
    by (apply vin_database_spelling; discriminate).
  assert (Z.of_nat (length a) < 2 ^ 63) as Hlength by reflexivity.
  split; [exact Ha |]. split; [exact Hidentifier |].
  split; [exact Hspelling |].
  exact (proj1 (proj2
    (enqueue_then_dequeue_all "orders" a vin_database eq_refl Hidentifier
       Hspelling Hbody Hne Hlength Ha eq_refl))).
Defined.

Lemma remove_key_then_not_found_witness :
  let db : gmap string string := <["user1" := "99"]> ∅ in
  NotFound (Maps.router_get "user1" (Maps.router_delete "user1" db).2).1.
Proof.
  intros db.
  exact (proj2 (proj2 (remove_key_then_not_found "user1" db eq_refl))).
Defined.

Lemma not_found_iff_no_table_witness :
  let db : gmap string (gmap Z string) := <["q" := ∅]> ∅ in
  (Queue.router_get "q" None db).1 = res_json 200 (JArray [])
  /\ (Queue.router_get_depth "q" db).1 = res_json 200 (JNumber 0)
  /\ NotFound (Queue.router_get_depth "orders" db).1.
Proof.
  intros db.
  assert (1 <= default 1 None) as Hlimit by (cbn; lia).
  assert (default 1 None < 2 ^ 63) as Hfits by reflexivity.
  destruct (not_found_iff_no_table "q" None db eq_refl Hlimit)
    as (_ & _ & _ & Hempty).
  assert (sql_identifier "q" = true) as Hidentifier by reflexivity.
  destruct (Hempty eq_refl Hidentifier) as (Hget & Hdepth & _).
  destruct (not_found_iff_no_table "orders" None db eq_refl Hlimit)
    as (_ & _ & Habsent & _).
  split; [exact (Hget Hfits) |]. split; [exact Hdepth |].
  apply Habsent. reflexivity.
Defined.

(** C6 as the specification states it fails at a limit that does not fit
    the 64 bits: the queue exists and holds no item, the limit
    9223372036854775808 passes the validation, and dequeue does not
    succeed with the empty sequence but answers 500. *)
Lemma dequeue_of_an_empty_queue_fails_at_limit_2_63 :
  let db : gmap string (gmap Z string) := <["q" := ∅]> ∅ in
  let limit := 9223372036854775808 in
  let r := Queue.router_get "q" (Some limit) db in
  isInt 1 None limit = true
  /\ db !! "q" = Some ∅
  /\ r.1 = next_err
  /\ status_of r.1 = Some 500
  /\ r.1 <> res_json 200 (JArray []).
Proof.
  cbv zeta. split; [reflexivity |]. split; [reflexivity |].
  rewrite (queue_get_refused "q" _ (<["q" := ∅]> ∅) ∅ eq_refl
             (lookup_insert_eq _ _ _)) by (vm_compute; discriminate).
  by repeat split.
Qed.

Lemma clear_always_succeeds_witness :
  (Queue.router_delete "vin" vin_database).1 = res_end 200
  /\ (Queue.router_delete "vin" vin_database).2 !! "vin" = None
  /\ (Queue.router_delete "orders" vin_database).1 = res_end 200
  /\ NotFound
       (Queue.router_get_depth "orders"
          (Queue.router_delete "orders" vin_database).2).1.
Proof.
  destruct (clear_always_succeeds "vin" vin_database eq_refl)
    as (Hresponse & Hgone & _).
  destruct (clear_always_succeeds "orders" vin_database eq_refl)
    as (Hresponse' & _ & _ & Hdepth).
  split; [exact Hresponse |]. split; [exact Hgone |].
  split; [exact Hresponse' | exact Hdepth].
Defined.

Lemma peek_is_read_only_witness :
  Queue.peek_times 5 "vin" vin_database = vin_database
  /\ (Queue.router_get_depth "vin" (Queue.peek_times 5 "vin" vin_database)).1
     = res_json 200 (JNumber 3).
Proof.
  destruct (peek_is_read_only "vin" vin_database vin_table 5 eq_refl eq_refl)
    as (Hsame & _ & Hdepth & Hafter).
  split; [exact Hsame |]. rewrite Hafter. exact Hdepth.
Defined.

Lemma peek_wraps_what_is_no_number_witness :
  (Queue.router_get_peek "vin" vin_database).1
  = res_json 200 (JArray [JString "VIN1"]).
Proof.
  destruct (peek_wraps_what_is_no_number "vin" vin_database vin_table
              eq_refl eq_refl) as [_ Hpeek].
  apply (Hpeek (4, JSON_stringify (JString "VIN1"))
               [(5, JSON_stringify (JString "VIN2"));
                (7, JSON_stringify (JString "VIN3"))]);
    [reflexivity | reflexivity | discriminate].
Defined.

(** Enqueue reads the name of the queue as SQLite does.  Under the name
    [123] or [select] it answers 500 and creates nothing.  With a table
    [Orders] there, enqueue on [orders] answers 201 and appends to
    [Orders]: no table [orders] is made, depth of [orders] answers 404,
    and the list of queues names [Orders] alone. *)
Lemma enqueue_reads_the_name_as_SQLite_does :
  let db := (Queue.router_post "Orders" (JArray [JString "a"]) ∅).2 in
  let r := Queue.router_post "orders" (JArray [JString "b"]) db in
  Queue.router_post "123" (JArray [JString "a"]) ∅ = (next_err, ∅)
  /\ Queue.router_post "select" (JArray [JString "a"]) ∅ = (next_err, ∅)
  /\ r.1 = res_end 201
  /\ r.2 !! "orders" = None
  /\ Queue.order_by_position <$> r.2 !! "Orders"
     = Some [(1, JSON_stringify (JString "a"));
             (2, JSON_stringify (JString "b"))]
  /\ status_of (Queue.router_get_depth "orders" r.2).1 = Some 404
  /\ Queue.select_names r.2 = ["Orders"].
Proof. cbv zeta. repeat split; vm_compute; reflexivity. Qed.

(** C4 at a number.  With the number 3 alone on the queue, peek answers an
    array of three nulls where dequeue answers the array of the number
    itself; with the number -1 or 4294967296 peek answers nothing at all,
    and with the number 0 it answers the empty array. *)
Theorem peek_takes_a_number_for_a_length :
  let queue_of (v : json) := (Queue.router_post "q" (JArray [v]) ∅).2 in
  (Queue.router_get_peek "q" (queue_of (JNumber 3))).1
    = res_json 200 (JArray [JNull; JNull; JNull])
  /\ (Queue.router_get "q" None (queue_of (JNumber 3))).1
     = res_json 200 (JArray [JNumber 3])
  /\ (Queue.router_get_peek "q" (queue_of (JNumber 0))).1
     = res_json 200 (JArray [])
  /\ (Queue.router_get_peek "q" (queue_of (JNumber (-1)))).1
     = uncaught_exception
  /\ (Queue.router_get_peek "q" (queue_of (JNumber 4294967296))).1
     = uncaught_exception.
Proof. cbv zeta. repeat split; vm_compute; reflexivity. Qed.

End Runs.

(** * Further properties of the routers *)

(** ** The lists of names *)

Lemma order_by_name_perm names : order_by_name names ≡ₚ names.
Proof. apply merge_sort_Permutation. Qed.

Lemma order_by_name_sorted names : StronglySorted String.le (order_by_name names).
Proof. apply StronglySorted_merge_sort; apply _. Qed.

Lemma elem_of_keys {A} (m : gmap string A) name :
  name ∈ order_by_name (map_to_list m).*1 ↔ is_Some (m !! name).
Proof.
  rewrite order_by_name_perm, list_elem_of_fmap. split.
  - intros ([k x] & -> & Hin). apply elem_of_map_to_list in Hin. by exists x.
  - intros [x Hx]. exists (name, x). split; [done |].
    by apply elem_of_map_to_list.
Qed.

Lemma NoDup_keys {A} (m : gmap string A) :
  NoDup (order_by_name (map_to_list m).*1).
Proof. rewrite order_by_name_perm. apply NoDup_fst_map_to_list. Qed.

(** The list is decided by the names that have a row. *)
Lemma keys_same_names {A B} (m : gmap string A) (m' : gmap string B) :
  (forall name, is_Some (m !! name) ↔ is_Some (m' !! name)) ->
  order_by_name (map_to_list m).*1 = order_by_name (map_to_list m').*1.
Proof.
  intros Hsame.
  apply (StronglySorted_unique String.le); [apply order_by_name_sorted.. |].
  apply NoDup_Permutation; [apply NoDup_keys.. |].
  intros name. by rewrite !elem_of_keys.
Qed.

(** ** Queues: the other routes, and how the routes compose *)

Section QueueFurther.
Context `{JsonCodec} `{BodyValidator} `{SqlKeywords}.
Implicit Types (queue other : string) (db : gmap string (gmap Z string))
  (t : gmap Z string) (payloads : list json).

Lemma dbTableExists_iff queue db :
  Queue.dbTableExists queue db = true ↔ is_Some (db !! queue).
Proof.
  unfold Queue.dbTableExists, Queue.count_sqlite_master.
  destruct (db !! queue); cbn; split; (done || by intros []).
Qed.

Lemma insert_into_Some name items db db2 :
  Queue.insert_into name items db = Some db2 ->
  exists k t', Queue.resolve name db = Some k /\ db2 = <[k := t']> db.
Proof.
  unfold Queue.insert_into. destruct (negb _); [discriminate |].
  destruct items as [|text items]; [discriminate |].
  destruct (Queue.resolve name db) as [k|]; [| discriminate].
  destruct (db !! k) as [t|]; [| discriminate].
  destruct (Queue.insert_values _ t) as [t'|]; [| discriminate].
  intros [= <-]. eauto.
Qed.

(** What enqueue can do to the database: nothing, or put a table under
    the name of the queue in one of its spellings (the spelling of the
    request, or that of a table that is there); the latter when it
    answers 201. *)
Lemma queue_post_database queue body db :
  let r := Queue.router_post queue body db in
  (r.2 = db /\ r.1 <> res_end 201)
  \/ exists k t',
       (k = queue \/ is_Some (db !! k)) /\ fold_case k = fold_case queue
       /\ r.2 = <[k := t']> db.
Proof.
  cbv zeta. unfold Queue.router_post.
  destruct (has_errors _); [left; by split |].
  set (created := if negb (Queue.dbTableExists queue db)
                  then Queue.create_table_if_not_exists queue db else Some db).
  assert ((created = None \/ created = Some db)
          \/ created = Some (<[queue := ∅]> db)) as Hcreated.
  { subst created. unfold Queue.create_table_if_not_exists.
    destruct (negb _); [| by left; right].
    destruct (sql_identifier queue); [| by left; left].
    destruct (Queue.resolve queue db); [by left; right | by right]. }
  assert (forall t', <[queue := t']> (<[queue := ∅]> db) = <[queue := t']> db)
    as Htwice by (intros; apply insert_insert_eq).
  destruct Hcreated as [Hsame | ->].
  - assert (default db created = db) as -> by by destruct Hsame as [-> | ->].
    destruct body; try (left; split; [done | by destruct created]).
    destruct (Queue.insert_into queue _ db) as [db2|] eqn:Hinsert;
      [| left; split; [by destruct created | by destruct created]].
    destruct (insert_into_Some _ _ _ _ Hinsert) as (k & t' & Hk & ->).
    destruct (resolve_Some _ _ _ Hk) as [Hthere Hfold].
    right. exists k, t'. split; [by right |]. split; [exact Hfold |].
    by destruct created.
  - cbn [default from_option id].
    destruct body; try (right; exists queue, ∅; by repeat split; auto).
    destruct (Queue.insert_into queue _ _) as [db2|] eqn:Hinsert;
      [| right; exists queue, ∅; by repeat split; auto].
    destruct (insert_into_Some _ _ _ _ Hinsert) as (k & t' & Hk & ->).
    rewrite resolve_exact in Hk by (rewrite lookup_insert_eq; eauto).
    injection Hk as <-. right. exists queue, t'. rewrite Htwice.
    by repeat split; auto.
Qed.

(** What dequeue can do to the database. *)
Lemma queue_get_database queue limit db :
  let r := Queue.router_get queue limit db in
  r.2 = db \/ exists t t', db !! queue = Some t /\ r.2 = <[queue := t']> db.
Proof.
  cbv zeta. unfold Queue.router_get.
  destruct (has_errors _); [by left |].
  destruct (negb _); [by left |].
  destruct (db !! queue) as [t|] eqn:Ht; [| by left].
  destruct (Queue.LIMIT _ _) as [rows|]; [| by left].
  destruct (Queue.parse_items _); [| by left]. right. eauto.
Qed.

Lemma queue_delete_database queue db :
  (Queue.router_delete queue db).2 = db
  \/ (Queue.router_delete queue db).2 = delete queue db.
Proof.
  unfold Queue.router_delete, Queue.drop_table.
  destruct (has_errors _); [by left |]. destruct (negb _); auto.
Qed.

Lemma queue_delete_eq queue db :
  isAlphanumeric queue = true ->
  Queue.router_delete queue db = (res_end 200, delete queue db).
Proof.
  intros Hname. unfold Queue.router_delete, Queue.drop_table. rewrite Hname.
  cbn [withMessage has_errors].
  destruct (db !! queue) as [t|] eqn:Ht.
  - by rewrite (dbTableExists_Some _ _ _ Ht).
  - by rewrite (dbTableExists_None _ _ Ht), delete_id.
Qed.

(** X7. [GET /queue] answers the names of the queues that exist, each
    once, in ascending order, and changes nothing.  Dequeue never takes a
    queue off the list, so a queue that has been emptied stays listed; an
    enqueue that answers 201 leaves its queue on the list in one of its
    spellings, in its own where no table was named so in another, and
    clear takes the queue off. *)
Theorem queue_list_is_the_tables db :
  let names := Queue.select_names db in
  Queue.router_get_root db = (res_json 200 (JArray (JString <$> names)), db)
  /\ (forall queue, queue ∈ names <-> Queue.dbTableExists queue db = true)
  /\ StronglySorted String.le names
  /\ NoDup names
  /\ (forall queue limit,
       Queue.select_names (Queue.router_get queue limit db).2 = names)
  /\ (forall queue body,
       (Queue.router_post queue body db).1 = res_end 201 ->
       (exists name,
          name ∈ Queue.select_names (Queue.router_post queue body db).2
          /\ fold_case name = fold_case queue)
       /\ (Queue.no_other_spelling queue db ->
           queue ∈ Queue.select_names (Queue.router_post queue body db).2))
  /\ (forall queue,
       isAlphanumeric queue = true ->
       queue ∉ Queue.select_names (Queue.router_delete queue db).2).
Proof.
  cbv zeta. unfold Queue.select_names.
  split; [reflexivity |].
  split; [intros queue; by rewrite elem_of_keys, dbTableExists_iff |].
  split; [apply order_by_name_sorted |]. split; [apply NoDup_keys |].
  split; [| split].
  - intros queue limit.
    destruct (queue_get_database queue limit db) as [-> | (t & t' & Ht & ->)];
      [done |].
    apply keys_same_names. intros name.
    destruct (decide (name = queue)) as [-> | Hne].
    + rewrite lookup_insert_eq, Ht. split; eauto.
    + by rewrite lookup_insert_ne.
  - intros queue body Hcreated.
    destruct (queue_post_database queue body db)
      as [[_ Hno] | (k & t' & Hk & Hfold & ->)]; [done |].
    split.
    + exists k. split; [| exact Hfold].
      rewrite elem_of_keys, lookup_insert_eq. eauto.
    + intros Hspelling.
      assert (k = queue) as -> by (destruct Hk; [done | by apply Hspelling]).
      rewrite elem_of_keys, lookup_insert_eq. eauto.
  - intros queue Hname. rewrite elem_of_keys.
    rewrite (queue_delete_eq _ _ Hname). cbn [snd].
    rewrite lookup_delete_eq. by intros [].
Qed.

Lemma parse_items_take rows payloads k :
  Queue.parse_items rows = Some payloads ->
  Queue.parse_items (take k rows) = Some (take k payloads).
Proof.
  unfold Queue.parse_items. rewrite !mapM_Some. apply Forall2_take.
Qed.

Lemma parse_items_drop rows payloads k :
  Queue.parse_items rows = Some payloads ->
  Queue.parse_items (drop k rows) = Some (drop k payloads).
Proof.
  unfold Queue.parse_items. rewrite !mapM_Some. apply Forall2_drop.
Qed.

Lemma parse_items_length rows payloads :
  Queue.parse_items rows = Some payloads -> length payloads = length rows.
Proof.
  unfold Queue.parse_items. rewrite mapM_Some. intros Hall.
  symmetry. by eapply Forall2_length.
Qed.

Lemma queue_export_eq queue db t payloads :
  isAlphanumeric queue = true -> db !! queue = Some t ->
  Queue.parse_items (Queue.order_by_position t) = Some payloads ->
  Queue.router_get_export queue db = (res_json 200 (JArray payloads), db).
Proof.
  intros Hname Ht Hparse. unfold Queue.router_get_export. rewrite Hname.
  cbn [withMessage has_errors]. rewrite (dbTableExists_Some _ _ _ Ht).
  cbn [negb]. by rewrite Ht, Hparse.
Qed.

(** X8. On a queue that exists under a name that SQLite reads as an
    identifier and whose items parse, export
    ([GET /queue/{name}/export]) answers the payloads of all items in
    ascending position, as many as depth counts, and changes nothing; a
    dequeue in the same state, with a limit of at least 1 and below
    [2 ^ 63], answers the first [min(limit, depth)] of these payloads, and
    all of them when the limit reaches the depth.  On a name that has no
    queue export answers 404. *)
Theorem export_shows_what_dequeue_takes queue db t payloads :
  isAlphanumeric queue = true ->
  sql_identifier queue = true ->
  db !! queue = Some t ->
  Queue.parse_items (Queue.order_by_position t) = Some payloads ->
  let r := Queue.router_get_export queue db in
  r = (res_json 200 (JArray payloads), db)
  /\ (Queue.router_get_depth queue db).1
     = res_json 200 (JNumber (Z.of_nat (length payloads)))
  /\ (forall limit,
       1 <= default 1 limit < 2 ^ 63 ->
       (Queue.router_get queue limit db).1
       = res_json 200 (JArray (take (Z.to_nat (default 1 limit)) payloads)))
  /\ (forall limit,
       1 <= limit < 2 ^ 63 -> Z.of_nat (length payloads) <= limit ->
       (Queue.router_get queue (Some limit) db).1 = r.1)
  /\ (forall db', db' !! queue = None ->
       NotFound (Queue.router_get_export queue db').1).
Proof.
  intros Hname _ Ht Hparse r. subst r.
  pose proof (parse_items_length _ _ Hparse) as Hlength.
  rewrite order_by_position_length in Hlength.
  assert (forall limit, 1 <= default 1 limit < 2 ^ 63 ->
            (Queue.router_get queue limit db).1
            = res_json 200 (JArray (take (Z.to_nat (default 1 limit)) payloads)))
    as Hget.
  { intros limit Hlimit.
    rewrite (queue_get_eq queue limit db t
               (take (Z.to_nat (default 1 limit) `min` size t) payloads)
               Hname Ht Hlimit (parse_items_take _ _ _ Hparse)).
    cbn [fst]. do 2 f_equal. rewrite <- Hlength.
    destruct (Nat.min_spec (Z.to_nat (default 1 limit)) (length payloads))
      as [[_ ->] | [Hle ->]]; [done |].
    by rewrite firstn_all, take_ge. }
  rewrite (queue_export_eq _ _ _ _ Hname Ht Hparse).
  split; [reflexivity |]. split.
  { by rewrite (queue_depth_eq _ _ _ Hname Ht), Hlength. }
  split; [exact Hget |]. split.
  - intros limit Hlimit Hall. rewrite (Hget (Some limit) Hlimit). cbn [fst].
    do 2 f_equal. apply take_ge. cbn. lia.
  - intros db' Hnone. unfold Queue.router_get_export. rewrite Hname.
    cbn [withMessage has_errors]. by rewrite (dbTableExists_None _ _ Hnone).
Qed.

(** A table is decided by its rows in ascending position. *)
Lemma order_by_position_inj t1 t2 :
  Queue.order_by_position t1 = Queue.order_by_position t2 -> t1 = t2.
Proof.
  intros Hsame. apply map_to_list_inj.
  by rewrite <- !order_by_position_perm, Hsame.
Qed.

(** X9. Two dequeues in a row do what one dequeue with the sum of the
    limits does: on a queue that exists under a name that SQLite reads as
    an identifier, with limits of at least 1 whose sum is below [2 ^ 63],
    the
    first answers the first [k1 = min(limit1, depth)] payloads, the second
    the payloads that follow, none of them twice, the two answers together
    are the answer of the single dequeue, and the database is the same
    afterwards. *)
Theorem dequeues_compose queue limit1 limit2 db t payloads :
  isAlphanumeric queue = true ->
  sql_identifier queue = true ->
  db !! queue = Some t ->
  1 <= limit1 -> 1 <= limit2 -> limit1 + limit2 < 2 ^ 63 ->
  Queue.parse_items
    (take (Z.to_nat (limit1 + limit2)) (Queue.order_by_position t))
    = Some payloads ->
  let k1 := (Z.to_nat limit1 `min` size t)%nat in
  let first := Queue.router_get queue (Some limit1) db in
  let second := Queue.router_get queue (Some limit2) first.2 in
  let both := Queue.router_get queue (Some (limit1 + limit2)) db in
  first.1 = res_json 200 (JArray (take k1 payloads))
  /\ second.1 = res_json 200 (JArray (drop k1 payloads))
  /\ both.1 = res_json 200 (JArray payloads)
  /\ second.2 = both.2.
Proof.
  intros Hname _ Ht Hlimit1' Hlimit2' Hsum Hparse. cbv zeta.
  assert (1 <= default 1 (Some limit1) < 2 ^ 63) as Hlimit1 by (cbn; lia).
  assert (1 <= default 1 (Some limit2) < 2 ^ 63) as Hlimit2 by (cbn; lia).
  set (rows := Queue.order_by_position t) in *.
  set (n := size t).
  set (k1 := (Z.to_nat limit1 `min` n)%nat).
  set (k2 := (Z.to_nat limit2 `min` (n - k1))%nat).
  assert (length rows = n) as Hrows by apply order_by_position_length.
  assert ((Z.to_nat (limit1 + limit2) `min` n)%nat = (k1 + k2)%nat) as Hk
    by (subst k1 k2; lia).
  assert (take (Z.to_nat (limit1 + limit2)) rows = take (k1 + k2) rows)
    as Htake.
  { rewrite <- Hk. destruct (Nat.min_spec (Z.to_nat (limit1 + limit2)) n)
      as [[_ ->] | [Hle ->]]; [done |]. by rewrite !take_ge by lia. }
  rewrite Htake in Hparse.
  assert (Queue.parse_items (take k1 rows) = Some (take k1 payloads)) as Hfirst.
  { replace (take k1 rows) with (take k1 (take (k1 + k2) rows))
      by (rewrite take_take; f_equal; lia).
    by apply parse_items_take. }
  (* the first dequeue *)
  rewrite (queue_get_eq queue (Some limit1) db t (take k1 payloads)
             Hname Ht Hlimit1 Hfirst).
  cbn [fst snd]. split; [reflexivity |].
  set (t1 := Queue.delete_where_position_in (Queue.position <$> take k1 rows) t).
  assert (Queue.order_by_position t1 = drop k1 rows) as Hrows1
    by apply delete_lowest_positions.
  assert (size t1 = (n - k1)%nat) as Hsize1
    by apply delete_lowest_positions_size.
  (* the second dequeue *)
  assert (Queue.parse_items
            (take (Z.to_nat (default 1 (Some limit2)) `min` size t1)
                  (Queue.order_by_position t1))
          = Some (drop k1 payloads)) as Hsecond.
  { rewrite Hsize1, Hrows1. change (default 1 (Some limit2)) with limit2.
    fold k2. rewrite take_drop_commute. by apply parse_items_drop. }
  rewrite (queue_get_eq queue (Some limit2) _ t1 (drop k1 payloads)
             Hname (lookup_insert_eq _ _ _) Hlimit2 Hsecond).
  cbn [fst snd]. split; [reflexivity |].
  (* the single dequeue *)
  assert (1 <= default 1 (Some (limit1 + limit2)) < 2 ^ 63) as Hlimit
    by (cbn; lia).
  assert (Queue.parse_items
            (take (Z.to_nat (default 1 (Some (limit1 + limit2))) `min` size t)
                  (Queue.order_by_position t))
          = Some payloads) as Hboth.
  { change (default 1 (Some (limit1 + limit2))) with (limit1 + limit2).
    fold n rows. by rewrite Hk. }
  rewrite (queue_get_eq queue (Some (limit1 + limit2)) db t payloads
             Hname Ht Hlimit Hboth).
  cbn [fst snd]. split; [reflexivity |].
  rewrite insert_insert_eq. f_equal. apply order_by_position_inj.
  change (default 1 (Some limit2)) with limit2.
  change (default 1 (Some (limit1 + limit2))) with (limit1 + limit2).
  rewrite !delete_lowest_positions. fold rows n. rewrite Hsize1, Hrows1, Hk.
  fold k2. by rewrite drop_drop.
Qed.

Lemma queue_depth_database queue db : (Queue.router_get_depth queue db).2 = db.
Proof.
  unfold Queue.router_get_depth.
  repeat match goal with
         | |- context [if ?b then _ else _] => destruct b
         | |- context [match ?x with _ => _ end] => destruct x
         end; reflexivity.
Qed.

Lemma queue_export_database queue db :
  (Queue.router_get_export queue db).2 = db.
Proof.
  unfold Queue.router_get_export.
  repeat match goal with
         | |- context [if ?b then _ else _] => destruct b
         | |- context [match ?x with _ => _ end] => destruct x
         end; reflexivity.
Qed.

(** X10. A queue route touches no queue but the one it names: dequeue
    and clear leave every queue of another name as it was, enqueue every
    queue whose name differs from its own by more than the case of
    letters, and the routes that read (the list, depth, peek, export)
    change nothing at all. *)
Theorem queue_routes_touch_one_queue queue other db :
  other <> queue ->
  (forall body,
     fold_case other <> fold_case queue ->
     (Queue.router_post queue body db).2 !! other = db !! other)
  /\ (forall limit, (Queue.router_get queue limit db).2 !! other = db !! other)
  /\ (Queue.router_delete queue db).2 !! other = db !! other
  /\ (Queue.router_get_root db).2 = db
  /\ (Queue.router_get_depth queue db).2 = db
  /\ (Queue.router_get_peek queue db).2 = db
  /\ (Queue.router_get_export queue db).2 = db.
Proof.
  intros Hother. split; [| split; [| split; [| split; [| split; [| split]]]]].
  - intros body Hfold.
    destruct (queue_post_database queue body db)
      as [[-> _] | (k & t' & _ & Hk & ->)]; [done |].
    apply lookup_insert_ne. intros ->. by apply Hfold.
  - intros limit.
    destruct (queue_get_database queue limit db) as [-> | (t & t' & _ & ->)];
      [done | by rewrite lookup_insert_ne].
  - destruct (queue_delete_database queue db) as [-> | ->];
      [done | by rewrite lookup_delete_ne].
  - reflexivity.
  - apply queue_depth_database.
  - apply queue_peek_database.
  - apply queue_export_database.
Qed.

(** X11. What the queue routes refuse.  A name that is not alphanumeric
    is answered 400 by every route that takes a name, whether a queue of
    that name exists or not; so is a body that is not an array on enqueue
    and a limit below 1 on dequeue.  And a request that any route answers
    with 400 or 404 has changed nothing. *)
Theorem queue_refusals_change_nothing db :
  (forall queue body limit,
     isAlphanumeric queue = false ->
     ValidationError (Queue.router_post queue body db).1
     /\ ValidationError (Queue.router_get queue limit db).1
     /\ ValidationError (Queue.router_delete queue db).1
     /\ ValidationError (Queue.router_get_depth queue db).1
     /\ ValidationError (Queue.router_get_peek queue db).1
     /\ ValidationError (Queue.router_get_export queue db).1)
  /\ (forall queue body,
       isArray body = false ->
       ValidationError (Queue.router_post queue body db).1)
  /\ (forall queue limit,
       limit < 1 ->
       ValidationError (Queue.router_get queue (Some limit) db).1)
  /\ (forall request,
       status_of (Queue.handle request db).1 = Some 400
       \/ status_of (Queue.handle request db).1 = Some 404 ->
       (Queue.handle request db).2 = db).
Proof.
  split; [| split; [| split]].
  - intros queue body limit Hname.
    unfold Queue.router_post, Queue.router_get, Queue.router_delete,
      Queue.router_get_depth, Queue.router_get_peek, Queue.router_get_export.
    rewrite Hname. by cbn.
  - intros queue body Hbody. unfold Queue.router_post. rewrite Hbody.
    by destruct (isAlphanumeric queue), (notEmpty body).
  - intros queue limit Hlimit. unfold Queue.router_get, isInt.
    apply Z.leb_gt in Hlimit. rewrite Hlimit.
    by destruct (isAlphanumeric queue).
  - intros [| queue body | queue limit | queue | queue | queue | queue];
      cbn [Queue.handle]; intros Hstatus.
    + reflexivity.
    + revert Hstatus. unfold Queue.router_post.
      destruct (has_errors _); [done |]. cbv zeta.
      destruct (if negb _ then _ else _) as [db1|]; destruct body; cbn;
        try (intros [|]; discriminate);
        destruct (Queue.insert_into _ _ _); cbn; intros [|]; discriminate.
    + destruct (queue_get_database queue limit db)
        as [-> | (t & t' & Ht & _)]; [done |].
      revert Hstatus. unfold Queue.router_get.
      destruct (has_errors _); [done |].
      rewrite (dbTableExists_Some _ _ _ Ht), Ht. cbn [negb].
      destruct (Queue.LIMIT _ _) as [rows|]; [| done].
      destruct (Queue.parse_items _); cbn; [intros [|]; discriminate | done].
    + revert Hstatus. unfold Queue.router_delete.
      destruct (has_errors _); [done |].
      destruct (negb _); cbn; [done | intros [|]; discriminate].
    + apply queue_depth_database.
    + apply queue_peek_database.
    + apply queue_export_database.
Qed.

End QueueFurther.

(** ** Queues: the routes against the lists of the specification *)

Section QueueRefinement.
Context `{JsonCodec} `{BodyValidator} `{SqlKeywords}.
Implicit Types (queue : string) (db : gmap string (gmap Z string))
  (t : gmap Z string) (s : gmap string (list json)) (q : list json).

Lemma represents_empty : Fifo.represents ∅ ∅.
Proof. intros queue. by rewrite !lookup_empty. Qed.

Lemma represents_names db s :
  Fifo.represents db s ->
  order_by_name (map_to_list db).*1 = order_by_name (map_to_list s).*1.
Proof.
  intros Hrep. apply keys_same_names. intros name. specialize (Hrep name).
  destruct (db !! name), (s !! name); try done; split; eauto.
Qed.

Lemma represents_insert db s queue t q :
  Fifo.represents db s ->
  Queue.item <$> Queue.order_by_position t = JSON_stringify <$> q ->
  Forall serializable q ->
  Fifo.represents (<[queue := t]> db) (<[queue := q]> s).
Proof.
  intros Hrep Hitems Hq name. destruct (decide (name = queue)) as [-> | Hne].
  - by rewrite !lookup_insert_eq.
  - rewrite !lookup_insert_ne by done. apply Hrep.
Qed.

Lemma represents_delete db s queue :
  Fifo.represents db s -> Fifo.represents (delete queue db) (delete queue s).
Proof.
  intros Hrep name. destruct (decide (name = queue)) as [-> | Hne].
  - by rewrite !lookup_delete_eq.
  - rewrite !lookup_delete_ne by done. apply Hrep.
Qed.

(** The rows of a represented queue parse to its payloads. *)
Lemma parse_items_represented (rows : list (Z * string)) q :
  Queue.item <$> rows = JSON_stringify <$> q ->
  Forall serializable q ->
  Queue.parse_items rows = Some q.
Proof.
  intros Hitems Hq. revert rows Hitems. unfold Queue.parse_items.
  induction Hq as [|v q [_ Hv] _ IH]; intros [|row rows] Hitems;
    try discriminate; [reflexivity |].
  injection Hitems as Hrow Hrows. cbn. rewrite Hrow, Hv. cbn.
  by rewrite (IH rows Hrows).
Qed.

(** One request: the route answers what the lists answer, and the
    database afterwards represents the lists afterwards. *)
Lemma queue_handle_refines request db s :
  Fifo.accepted request -> Fifo.represents db s ->
  (forall queue,
     Fifo.name_of request = Some queue -> Queue.no_other_spelling queue db) ->
  exists s',
    Fifo.handle request s = Some ((Queue.handle request db).1, s')
    /\ Fifo.represents (Queue.handle request db).2 s'.
Proof.
  intros Haccepted Hrep Hspelling.
  destruct request as [| queue body | queue limit | queue | queue | queue | queue];
    cbn [Fifo.accepted Fifo.handle Queue.handle] in *.
  - (* the list of names *)
    exists s. split; [| exact Hrep]. unfold Queue.router_get_root, Queue.select_names.
    by rewrite (represents_names _ _ Hrep).
  - (* enqueue *)
    destruct Haccepted as (Hname & Hidentifier & Hbody & a & -> & Hne & Ha).
    destruct (queue_post_eq queue a db Hname Hidentifier
                (Hspelling queue eq_refl) Hbody Hne (serializable_text _ Ha))
      as (t' & -> & Horder).
    eexists. split; [reflexivity |]. cbn [snd].
    assert (Queue.item <$> Queue.order_by_position (default ∅ (db !! queue))
            = JSON_stringify <$> default [] (s !! queue)
            /\ Forall serializable (default [] (s !! queue))) as [Hold Hall].
    { specialize (Hrep queue).
      destruct (db !! queue), (s !! queue); done. }
    apply represents_insert; [exact Hrep | | by apply Forall_app].
    rewrite Horder, !fmap_app, fmap_imap, Hold. f_equal.
    by rewrite <- imap_const.
  - (* dequeue *)
    destruct Haccepted as (Hname & _ & Hlimit).
    pose proof (Hrep queue) as Hqueue.
    destruct (db !! queue) as [t|] eqn:Ht, (s !! queue) as [q|] eqn:Hq;
      try done.
    + destruct Hqueue as [Hitems Hall].
      pose proof (parse_items_represented _ _ Hitems Hall) as Hparse.
      assert (length q = size t) as Hlength.
      { rewrite <- order_by_position_length.
        by rewrite <- (length_fmap Queue.item), Hitems, length_fmap. }
      set (k := Z.to_nat (default 1 limit)).
      assert (take (k `min` size t) q = take k q) as Htake.
      { destruct (Nat.min_spec k (size t)) as [[_ ->] | [Hle ->]]; [done |].
        by rewrite !take_ge by lia. }
      assert (drop (k `min` size t) q = drop k q) as Hdrop.
      { destruct (Nat.min_spec k (size t)) as [[_ ->] | [Hle ->]]; [done |].
        by rewrite !drop_ge by lia. }
      rewrite (queue_get_eq queue limit db t (take (k `min` size t) q)
                 Hname Ht Hlimit (parse_items_take _ _ _ Hparse)).
      cbn [fst snd]. rewrite Htake. eexists. split; [reflexivity |].
      apply represents_insert; [exact Hrep | | by apply Forall_drop].
      rewrite delete_lowest_positions, fmap_drop, Hitems, <- fmap_drop.
      fold k. by rewrite Hdrop.
    + destruct (queue_absent_not_found queue db Hname Ht) as (Hget & _).
      rewrite (Hget limit (proj1 Hlimit)). by exists s.
  - (* clear *)
    rewrite (queue_delete_eq _ _ (proj1 Haccepted)). cbn [fst snd].
    eexists. split; [reflexivity |]. by apply represents_delete.
  - (* depth *)
    destruct Haccepted as [Hname _]. pose proof (Hrep queue) as Hqueue.
    destruct (db !! queue) as [t|] eqn:Ht, (s !! queue) as [q|] eqn:Hq;
      try done.
    + destruct Hqueue as [Hitems _].
      rewrite (queue_depth_eq _ _ _ Hname Ht). cbn [fst snd].
      exists s. split; [| exact Hrep]. do 4 f_equal.
      rewrite <- order_by_position_length.
      by rewrite <- (length_fmap Queue.item), Hitems, length_fmap.
    + destruct (queue_absent_not_found queue db Hname Ht) as (_ & _ & ->).
      by exists s.
  - done.
  - (* export *)
    destruct Haccepted as [Hname _]. pose proof (Hrep queue) as Hqueue.
    destruct (db !! queue) as [t|] eqn:Ht, (s !! queue) as [q|] eqn:Hq;
      try done.
    + destruct Hqueue as [Hitems Hall].
      rewrite (queue_export_eq _ _ _ _ Hname Ht
                 (parse_items_represented _ _ Hitems Hall)).
      by exists s.
    + exists s. unfold Queue.router_get_export.
      rewrite Hname. cbn [withMessage has_errors].
      by rewrite (dbTableExists_None _ _ Ht).
Qed.

Lemma fifo_handle_status request s response s' :
  Fifo.handle request s = Some (response, s') ->
  status_of response = Some 200 \/ status_of response = Some 201
  \/ status_of response = Some 404.
Proof.
  destruct request as [| queue body | queue limit | queue | queue | queue | queue];
    cbn [Fifo.handle]; try destruct body; try destruct (s !! queue);
    intros [= <- _]; cbn; auto.
Qed.

(** The tables after a request are those before it and, at most, one
    under the name of the request. *)
Lemma queue_handle_tables request db k :
  is_Some ((Queue.handle request db).2 !! k) ->
  is_Some (db !! k) \/ Fifo.name_of request = Some k.
Proof.
  destruct request as [| queue body | queue limit | queue | queue | queue | queue];
    cbn [Queue.handle Fifo.name_of].
  - by left.
  - destruct (queue_post_database queue body db)
      as [[-> _] | (k' & t' & Hk' & _ & ->)]; [by left |].
    destruct (decide (k = k')) as [-> | Hne].
    + intros _. destruct Hk' as [-> | Hthere]; [by right | by left].
    + rewrite lookup_insert_ne by done. by left.
  - destruct (queue_get_database queue limit db)
      as [-> | (t & t' & Ht & ->)]; [by left |].
    destruct (decide (k = queue)) as [-> | Hne]; [by right |].
    rewrite lookup_insert_ne by done. by left.
  - destruct (queue_delete_database queue db) as [-> | ->]; [by left |].
    destruct (decide (k = queue)) as [-> | Hne]; [by right |].
    rewrite lookup_delete_ne by done. by left.
  - rewrite queue_depth_database. by left.
  - rewrite queue_peek_database. by left.
  - rewrite queue_export_database. by left.
Qed.

Lemma queue_serve_refines (names : list string) requests db s :
  Fifo.one_spelling names ->
  Forall Fifo.accepted requests ->
  (forall queue, queue ∈ omap Fifo.name_of requests -> queue ∈ names) ->
  (forall k, is_Some (db !! k) -> k ∈ names) ->
  Fifo.represents db s ->
  exists s',
    Fifo.serve requests s = Some ((serve Queue.handle requests db).1, s')
    /\ Fifo.represents (serve Queue.handle requests db).2 s'
    /\ Forall (fun response =>
                 status_of response = Some 200 \/ status_of response = Some 201
                 \/ status_of response = Some 404)
              (serve Queue.handle requests db).1.
Proof.
  intros Hnames Haccepted. revert db s.
  induction Haccepted as [|request requests Hrequest _ IH];
    intros db s Hrequests Htables Hrep.
  - exists s. by repeat split.
  - assert (forall queue, Fifo.name_of request = Some queue -> queue ∈ names)
      as Hrequest_name.
    { intros queue Hqueue. apply Hrequests. cbn [omap list_omap].
      rewrite Hqueue. by left. }
    destruct (queue_handle_refines request db s Hrequest Hrep)
      as (s1 & Hhandle & Hrep1).
    { intros queue Hqueue k Hk Hfold.
      apply Hnames; [by apply Htables | by apply Hrequest_name | done]. }
    destruct (IH (Queue.handle request db).2 s1) as (s' & Hserve & Hrep' & Hstatus).
    { intros queue Hqueue. apply Hrequests. cbn [omap list_omap].
      destruct (Fifo.name_of request); [by right | done]. }
    { intros k Hk. destruct (queue_handle_tables _ _ _ Hk) as [Hthere | Hnamed];
        [by apply Htables | by apply Hrequest_name]. }
    { exact Hrep1. }
    exists s'. cbn [serve Fifo.serve fst snd]. rewrite Hhandle, Hserve.
    split; [reflexivity |]. split; [exact Hrep' |].
    constructor; [| exact Hstatus]. by eapply fifo_handle_status.
Qed.

(** X12. The queue routes implement first-in first-out queues.  From a
    database that represents a state of lists (the empty database
    represents the state with no queue), any sequence of requests that
    the routes and SQLite do not refuse, peek apart, in which every queue
    is named in one spelling, that of its table if it has one, is answered
    request by request as the lists answer it: enqueue appends the items
    at the back of the list, creating it when it is not there; dequeue
    answers the first [limit] payloads and leaves the rest; clear drops
    the list; depth answers its length, export its payloads, the list of
    names the names of the lists; dequeue, depth and export answer 404
    where there is no list.  The database afterwards represents the lists
    afterwards, and every answer has status 200, 201 or 404: no such
    request fails. *)
Theorem queue_routes_are_first_in_first_out requests db s :
  Forall Fifo.accepted requests ->
  Fifo.one_spelling (omap Fifo.name_of requests ++ (map_to_list db).*1) ->
  Fifo.represents db s ->
  let run := serve Queue.handle requests db in
  exists s',
    Fifo.serve requests s = Some (run.1, s')
    /\ Fifo.represents run.2 s'
    /\ Forall (fun response =>
                 status_of response = Some 200 \/ status_of response = Some 201
                 \/ status_of response = Some 404) run.1.
Proof.
  intros Haccepted Hnames Hrep. cbv zeta.
  apply (queue_serve_refines _ _ _ _ Hnames Haccepted); [| | exact Hrep].
  - intros queue Hqueue. apply elem_of_app. by left.
  - intros k [t Hk]. apply elem_of_app. right.
    apply list_elem_of_fmap. exists (k, t). split; [done |].
    by apply elem_of_map_to_list.
Qed.

End QueueRefinement.

(** ** Counters: the list, and requests that interleave *)

Section CounterFurther.
Implicit Types (counter other : string) (db : gmap string Z).

Lemma counter_post_database counter body db :
  let r := Counter.router_post counter body db in
  (r.2 = db /\ r.1 <> res_end 201) \/ r.2 = <[counter := body]> db.
Proof.
  cbv zeta. unfold Counter.router_post, Counter.insert_or_replace.
  destruct (has_errors _); [left; by split |].
  destruct (String.eqb counter ""); [left; by split | by right].
Qed.

Lemma counter_get_database counter db :
  let r := Counter.router_get counter db in
  (r.2 = db /\ status_of r.1 <> Some 200)
  \/ r.2 = <[counter := Counter.stored_value counter db + 1]> db.
Proof.
  cbv zeta. unfold Counter.router_get, Counter.insert_or_replace.
  destruct (has_errors _); [left; by split |].
  destruct (String.eqb counter ""); [left; by split |].
  unfold Counter.select_value, Counter.stored_value.
  rewrite lookup_insert_eq. right. by destruct (db !! counter).
Qed.

Lemma counter_delete_database counter db :
  let r := Counter.router_delete counter db in
  (r.2 = db /\ r.1 <> res_end 200) \/ r.2 = delete counter db.
Proof.
  cbv zeta. unfold Counter.router_delete, Counter.delete_where_name.
  destruct (has_errors _); [left; by split | by right].
Qed.

(** A request leaves the counters it does not name as they were. *)
Lemma counter_handle_other request counter db :
  (forall body, request <> Counter.POST counter body) ->
  request <> Counter.GET counter ->
  request <> Counter.DELETE counter ->
  (Counter.handle request db).2 !! counter = db !! counter.
Proof.
  intros Hpost Hget Hdelete.
  destruct request as [| c body | c | c]; cbn [Counter.handle].
  - reflexivity.
  - destruct (counter_post_database c body db) as [[-> _] | ->]; [done |].
    apply lookup_insert_ne. intros ->. by apply (Hpost body).
  - destruct (counter_get_database c db) as [[-> _] | ->]; [done |].
    apply lookup_insert_ne. by intros ->.
  - destruct (counter_delete_database c db) as [[-> _] | ->]; [done |].
    apply lookup_delete_ne. by intros ->.
Qed.

(** X13. [GET /counter] answers the names of the counters that have a
    row, each once, in ascending order, and changes nothing.  An
    incrementAndGet on an alphanumeric name puts the name on the list
    (the counter is created by its first use), so does an initialize that
    answers 201, and a delete takes it off. *)
Theorem counter_list_is_the_rows db :
  let names := Counter.select_names db in
  Counter.router_get_root db = (res_json 200 (JArray (JString <$> names)), db)
  /\ (forall counter, counter ∈ names <-> is_Some (db !! counter))
  /\ StronglySorted String.le names
  /\ NoDup names
  /\ (forall counter,
       isAlphanumeric counter = true ->
       counter ∈ Counter.select_names (Counter.router_get counter db).2)
  /\ (forall counter body,
       (Counter.router_post counter body db).1 = res_end 201 ->
       counter ∈ Counter.select_names (Counter.router_post counter body db).2)
  /\ (forall counter,
       isAlphanumeric counter = true ->
       counter ∉ Counter.select_names (Counter.router_delete counter db).2).
Proof.
  cbv zeta. unfold Counter.select_names.
  split; [reflexivity |]. split; [intros counter; apply elem_of_keys |].
  split; [apply order_by_name_sorted |]. split; [apply NoDup_keys |].
  split; [| split].
  - intros counter Hname. rewrite (counter_get_eq _ _ Hname). cbn [snd].
    rewrite elem_of_keys, lookup_insert_eq. eauto.
  - intros counter body Hcreated.
    destruct (counter_post_database counter body db) as [[_ Hno] | ->];
      [done |].
    rewrite elem_of_keys, lookup_insert_eq. eauto.
  - intros counter Hname. rewrite elem_of_keys.
    unfold Counter.router_delete, Counter.delete_where_name. rewrite Hname.
    cbn [withMessage has_errors snd]. rewrite lookup_delete_eq. by intros [].
Qed.

(** X14. No request to the counter router fails: whatever the database
    holds, the answer has status 200, 201 or 400, so the branches that pass
    an error on are never taken.  A name that is not alphanumeric is
    answered 400 by initialize, incrementAndGet and delete alike, and a
    request answered 400 has changed nothing. *)
Theorem counter_requests_never_fail request db :
  let r := Counter.handle request db in
  (status_of r.1 = Some 200 \/ status_of r.1 = Some 201
   \/ status_of r.1 = Some 400)
  /\ (status_of r.1 = Some 400 -> r.2 = db)
  /\ (forall counter body,
       isAlphanumeric counter = false ->
       ValidationError (Counter.router_post counter body db).1
       /\ ValidationError (Counter.router_get counter db).1
       /\ ValidationError (Counter.router_delete counter db).1).
Proof.
  cbv zeta. split; [| split].
  - destruct request as [| c body | c | c]; cbn [Counter.handle].
    + by left.
    + unfold Counter.router_post, Counter.insert_or_replace.
      destruct (isAlphanumeric c) eqn:Hname.
      * rewrite (isAlphanumeric_nonempty _ Hname).
        destruct (isInt _ _ _); cbn; auto.
      * destruct (isInt _ _ _); cbn; auto.
    + destruct (isAlphanumeric c) eqn:Hname.
      * rewrite (counter_get_eq _ _ Hname). by left.
      * unfold Counter.router_get. rewrite Hname. cbn. auto.
    + unfold Counter.router_delete. destruct (isAlphanumeric c); cbn; auto.
  - destruct request as [| c body | c | c]; cbn [Counter.handle].
    + done.
    + unfold Counter.router_post, Counter.insert_or_replace.
      destruct (has_errors _); [done |].
      by destruct (String.eqb c "").
    + destruct (counter_get_database c db) as [[-> _] | Hdb]; [done |].
      destruct (isAlphanumeric c) eqn:Hname.
      * by rewrite (counter_get_eq _ _ Hname).
      * unfold Counter.router_get. by rewrite Hname.
    + unfold Counter.router_delete. by destruct (has_errors _).
  - intros counter body Hname.
    unfold Counter.router_post, Counter.router_get, Counter.router_delete.
    rewrite Hname. by cbn.
Qed.

Lemma seq_shift_responses (v : Z) n :
  map (fun i => res_json 200 (JNumber (to_double (v + 1 + Z.of_nat i))))
      (seq 1 n)
  = map (fun i => res_json 200 (JNumber (to_double (v + Z.of_nat i))))
        (seq 2 n).
Proof.
  rewrite <- (List.seq_shift n 1), List.map_map. apply List.map_ext.
  intros i. do 3 f_equal. lia.
Qed.

(** X15. The values a counter hands out are consecutive however its
    requests interleave with others.  In any sequence of requests that
    neither initializes nor deletes the counter, the [n] calls of
    incrementAndGet on it leave [v + n] stored, [v] being the value
    stored before (0 when the counter has no row), whatever requests on
    other counters come in between; while [v + n] is at most [2 ^ 53] (and
    [v] at least [- 2 ^ 53]) they are answered [v + 1], [v + 2], ...,
    [v + n] in this order, and in general the call of index [i] is
    answered the double nearest to [v + i]. *)
Theorem interleaved_incrementAndGet_counts_up counter requests db :
  isAlphanumeric counter = true ->
  Forall (fun request =>
            (forall body, request <> Counter.POST counter body)
            /\ request <> Counter.DELETE counter) requests ->
  let run := serve Counter.handle requests db in
  let n := length (filter (fun request => request = Counter.GET counter) requests) in
  let v := Counter.stored_value counter db in
  answers_to (Counter.GET counter) requests run.1
  = map (fun i => res_json 200 (JNumber (to_double (v + Z.of_nat i)))) (seq 1 n)
  /\ Counter.stored_value counter run.2 = v + Z.of_nat n
  /\ (- 2 ^ 53 <= v -> v + Z.of_nat n <= 2 ^ 53 ->
      answers_to (Counter.GET counter) requests run.1
      = map (fun i => res_json 200 (JNumber (v + Z.of_nat i))) (seq 1 n)).
Proof.
  intros Hname Hrequests. cbv zeta.
  assert (answers_to (Counter.GET counter) requests
            (serve Counter.handle requests db).1
          = map (fun i => res_json 200
                            (JNumber (to_double
                                        (Counter.stored_value counter db
                                         + Z.of_nat i))))
                (seq 1 (length (filter (fun request =>
                                          request = Counter.GET counter)
                                       requests)))
          /\ Counter.stored_value counter (serve Counter.handle requests db).2
             = Counter.stored_value counter db
               + Z.of_nat (length (filter (fun request =>
                                             request = Counter.GET counter)
                                          requests))) as [Hanswers Hstored].
  { revert db.
    induction Hrequests as [|request requests [Hpost Hdelete] _ IH]; intros db.
    - cbn. split; [reflexivity | lia].
    - cbn [serve fst snd answers_to]. rewrite filter_cons.
      destruct (decide (request = Counter.GET counter)) as [-> | Hget].
      + cbn [Counter.handle length]. rewrite (counter_get_eq _ _ Hname).
        cbn [fst snd].
        destruct (IH (<[counter := Counter.stored_value counter db + 1]> db))
          as [Hanswers Hstored].
        rewrite Hanswers, Hstored, stored_value_insert. split; [| lia].
        cbn [seq map]. rewrite <- seq_shift_responses.
        replace (Counter.stored_value counter db + Z.of_nat 1)
          with (Counter.stored_value counter db + 1) by lia.
        reflexivity.
      + destruct (IH (Counter.handle request db).2) as [Hanswers Hstored].
        assert (Counter.stored_value counter (Counter.handle request db).2
                = Counter.stored_value counter db) as Hsame.
        { unfold Counter.stored_value.
          by rewrite (counter_handle_other request counter db Hpost Hget
                        Hdelete). }
        by rewrite Hanswers, Hstored, Hsame. }
  split; [exact Hanswers |]. split; [exact Hstored |].
  intros Hlow Hhigh. rewrite Hanswers. apply List.map_ext_in.
  intros i Hi. apply List.in_seq in Hi. rewrite to_double_exact; [done | lia].
Qed.

End CounterFurther.

(** ** Maps: the list, the refusals, and the routes against a dictionary *)

Section MapFurther.
Context `{JsonCodec} `{BodyValidator}.
Implicit Types (key other : string) (db : gmap string string)
  (s : gmap string json).

Lemma map_post_database key value db :
  let r := Maps.router_post key value db in
  (r.2 = db /\ r.1 <> res_end 201)
  \/ (r = (res_end 201, <[key := JSON_stringify value]> db)).
Proof.
  cbv zeta. unfold Maps.router_post, Maps.insert_or_replace.
  destruct (has_errors _); [left; by split |].
  destruct (_ || _); [left; by split | by right].
Qed.

Lemma map_post_eq key value db :
  isAlphanumeric key = true -> notEmpty value = true ->
  JSON_stringify value <> "" ->
  Maps.router_post key value db = (res_end 201, <[key := JSON_stringify value]> db).
Proof.
  intros Hname Hbody Htext. unfold Maps.router_post, Maps.insert_or_replace.
  rewrite Hname, Hbody, (isAlphanumeric_nonempty _ Hname).
  apply String.eqb_neq in Htext. by rewrite Htext.
Qed.

Lemma map_delete_eq key db :
  isAlphanumeric key = true ->
  Maps.router_delete key db = (res_end 200, delete key db).
Proof.
  intros Hname. unfold Maps.router_delete, Maps.delete_where_name.
  by rewrite Hname.
Qed.

Lemma map_get_database key db : (Maps.router_get key db).2 = db.
Proof.
  unfold Maps.router_get.
  repeat match goal with
         | |- context [if ?b then _ else _] => destruct b
         | |- context [match ?x with _ => _ end] => destruct x
         end; reflexivity.
Qed.

Lemma map_delete_database key db :
  let r := Maps.router_delete key db in
  (r.2 = db /\ r.1 <> res_end 200) \/ r.2 = delete key db.
Proof.
  cbv zeta. unfold Maps.router_delete, Maps.delete_where_name.
  destruct (has_errors _); [left; by split | by right].
Qed.

(** X16. [GET /map] answers the keys that have a row, each once, in
    ascending order, and changes nothing; a put that answers 201 puts its
    key on the list, a get never changes the list, and a remove takes the
    key off. *)
Theorem map_list_is_the_rows db :
  let names := Maps.select_names db in
  Maps.router_get_root db = (res_json 200 (JArray (JString <$> names)), db)
  /\ (forall key, key ∈ names <-> is_Some (db !! key))
  /\ StronglySorted String.le names
  /\ NoDup names
  /\ (forall key value,
       (Maps.router_post key value db).1 = res_end 201 ->
       key ∈ Maps.select_names (Maps.router_post key value db).2)
  /\ (forall key, Maps.select_names (Maps.router_get key db).2 = names)
  /\ (forall key,
       isAlphanumeric key = true ->
       key ∉ Maps.select_names (Maps.router_delete key db).2).
Proof.
  cbv zeta. unfold Maps.select_names.
  split; [reflexivity |]. split; [intros key; apply elem_of_keys |].
  split; [apply order_by_name_sorted |]. split; [apply NoDup_keys |].
  split; [| split].
  - intros key value Hcreated.
    destruct (map_post_database key value db) as [[_ Hno] | ->]; [done |].
    cbn [snd]. rewrite elem_of_keys, lookup_insert_eq. eauto.
  - intros key. by rewrite map_get_database.
  - intros key Hname. rewrite (map_delete_eq _ _ Hname). cbn [snd].
    rewrite elem_of_keys, lookup_delete_eq. by intros [].
Qed.

(** X17. A map route touches no key but the one it names, and get and the
    list change nothing at all.  A key that is not alphanumeric is answered
    400 by put, get and remove; a request answered 400 or 404 has changed
    nothing; and get answers 500, through the error handler, exactly when
    the key holds a text that does not parse. *)
Theorem map_routes_touch_one_key key db :
  (forall other value,
     other <> key -> (Maps.router_post key value db).2 !! other = db !! other)
  /\ (forall other,
       other <> key -> (Maps.router_delete key db).2 !! other = db !! other)
  /\ (Maps.router_get key db).2 = db
  /\ (Maps.router_get_root db).2 = db
  /\ (forall value,
       isAlphanumeric key = false ->
       ValidationError (Maps.router_post key value db).1
       /\ ValidationError (Maps.router_get key db).1
       /\ ValidationError (Maps.router_delete key db).1)
  /\ (forall request,
       status_of (Maps.handle request db).1 = Some 400
       \/ status_of (Maps.handle request db).1 = Some 404 ->
       (Maps.handle request db).2 = db)
  /\ (isAlphanumeric key = true ->
      (status_of (Maps.router_get key db).1 = Some 500
       <-> exists text, db !! key = Some text /\ JSON_parse text = None)).
Proof.
  split; [| split; [| split; [| split; [| split; [| split]]]]].
  - intros other value Hother.
    destruct (map_post_database key value db) as [[-> _] | ->]; [done |].
    by apply lookup_insert_ne.
  - intros other Hother.
    destruct (map_delete_database key db) as [[-> _] | ->]; [done |].
    by apply lookup_delete_ne.
  - apply map_get_database.
  - reflexivity.
  - intros value Hname.
    unfold Maps.router_post, Maps.router_get, Maps.router_delete.
    rewrite Hname. by cbn.
  - intros [| k value | k | k]; cbn [Maps.handle]; intros Hstatus.
    + reflexivity.
    + destruct (map_post_database k value db) as [[-> _] | Heq]; [done |].
      rewrite Heq in Hstatus. by destruct Hstatus.
    + apply map_get_database.
    + destruct (map_delete_database k db) as [[-> _] | Hdb]; [done |].
      revert Hstatus. unfold Maps.router_delete.
      destruct (has_errors _); [done |]. by intros [|].
  - intros Hname. rewrite (map_get_eq _ _ Hname).
    destruct (db !! key) as [text|]; cbn.
    + destruct (JSON_parse text) eqn:Hparse; cbn.
      * split; [discriminate |]. intros (text' & [= <-] & Hnone). congruence.
      * split; [eauto | done].
    + split; [discriminate |]. by intros (text & ? & _).
Qed.

Lemma dict_represents_empty : Dict.represents ∅ ∅.
Proof. split; [by rewrite fmap_empty | apply map_Forall_empty]. Qed.

(** One request: the route answers what the dictionary answers, and the
    database afterwards represents the dictionary afterwards. *)
Lemma map_handle_refines request db s :
  Dict.accepted request -> Dict.represents db s ->
  (Maps.handle request db).1 = (Dict.handle request s).1
  /\ Dict.represents (Maps.handle request db).2 (Dict.handle request s).2.
Proof.
  intros Haccepted [-> Hall].
  destruct request as [| key value | key | key];
    cbn [Dict.accepted Dict.handle Maps.handle fst snd] in *.
  - split; [| by split]. unfold Maps.router_get_root, Maps.select_names.
    cbn [fst]. do 3 f_equal. apply keys_same_names. intros name.
    rewrite lookup_fmap. by rewrite fmap_is_Some.
  - destruct Haccepted as (Hname & Hbody & Hvalue).
    rewrite (map_post_eq _ _ _ Hname Hbody (proj1 Hvalue)). cbn [fst snd].
    split; [done |]. split; [by rewrite fmap_insert |].
    by apply map_Forall_insert_2.
  - rewrite (map_get_eq _ _ Haccepted), lookup_fmap.
    destruct (s !! key) as [value|] eqn:Hvalue; cbn.
    + rewrite (proj2 (Hall _ _ Hvalue)). split; [done |]. by split.
    + split; [done |]. by split.
  - rewrite (map_delete_eq _ _ Haccepted). cbn [fst snd].
    split; [done |]. split; [by rewrite fmap_delete |].
    by apply map_Forall_delete.
Qed.

(** X18. The map routes implement a dictionary.  From a database that
    represents a dictionary (the empty database represents the empty
    one), any sequence of requests that the routes do not refuse is
    answered request by request as the dictionary answers it: get answers
    the value of the last put on the key that no remove has followed, and
    404 when there is none; and the database afterwards represents the
    dictionary afterwards.  No such request is answered 500. *)
Theorem map_routes_are_a_dictionary requests db s :
  Forall Dict.accepted requests ->
  Dict.represents db s ->
  let run := serve Maps.handle requests db in
  let model := serve Dict.handle requests s in
  run.1 = model.1
  /\ Dict.represents run.2 model.2
  /\ Forall (fun response =>
               status_of response = Some 200 \/ status_of response = Some 201
               \/ status_of response = Some 404) run.1.
Proof.
  intros Haccepted. revert db s. cbv zeta.
  induction Haccepted as [|request requests Hrequest _ IH]; intros db s Hrep.
  - split; [done |]. split; [done | constructor].
  - destruct (map_handle_refines request db s Hrequest Hrep) as [Hanswer Hrep1].
    destruct (IH _ _ Hrep1) as (Hanswers & Hrep' & Hstatus).
    cbn [serve fst snd]. rewrite Hanswer, Hanswers.
    split; [reflexivity |]. split; [exact Hrep' |].
    constructor; [| by rewrite <- Hanswers].
    destruct request as [| key value | key | key]; cbn [Dict.handle];
      try destruct (s !! key); cbn; auto.
Qed.

End MapFurther.

(** ** Persons: the email addresses *)

Section PersonProperties.
Implicit Types (db : gmap string Z) (d : Person.draws) (c : ascii).

Lemma append_cons c (s1 s2 : string) :
  String c s1 +:+ s2 = String c (s1 +:+ s2).
Proof. reflexivity. Qed.

Lemma chars_append (s1 s2 : string) :
  list_ascii_of_string (s1 +:+ s2)
  = list_ascii_of_string s1 ++ list_ascii_of_string s2.
Proof.
  induction s1 as [|c s1 IH]; [reflexivity |].
  rewrite append_cons. cbn [list_ascii_of_string]. by rewrite IH.
Qed.

Lemma chars_inj (s1 s2 : string) :
  list_ascii_of_string s1 = list_ascii_of_string s2 -> s1 = s2.
Proof.
  intros Hsame. rewrite <- (string_of_list_ascii_of_string s1).
  rewrite <- (string_of_list_ascii_of_string s2). by rewrite Hsame.
Qed.

(** What follows the last separator of a text decides the text after it. *)
Lemma after_last_separator (sep : ascii) (a a' b b' : list ascii) :
  a ++ sep :: b = a' ++ sep :: b' -> sep ∉ b -> sep ∉ b' -> b = b'.
Proof.
  intros Hsame Hb Hb'.
  assert (reverse b ++ sep :: reverse a = reverse b' ++ sep :: reverse a')
    as Hreversed.
  { apply (f_equal reverse) in Hsame.
    by rewrite !reverse_app, !reverse_cons, <- !(assoc_L (++)) in Hsame. }
  assert (forall (l l' r r' : list ascii),
            l ++ sep :: r = l' ++ sep :: r' -> sep ∉ l -> sep ∉ l' -> l = l')
    as Hfirst.
  { clear. induction l as [|x l IH]; intros [|x' l'] r r' Hsame Hl Hl'.
    - reflexivity.
    - injection Hsame as <- _. exfalso. apply Hl'. by left.
    - injection Hsame as -> _. exfalso. apply Hl. by left.
    - injection Hsame as -> Hsame. f_equal.
      apply (IH l' r r' Hsame); intros Hin; [apply Hl | apply Hl']; by right. }
  apply (inj reverse). apply (Hfirst _ _ _ _ Hreversed).
  - by rewrite elem_of_reverse.
  - by rewrite elem_of_reverse.
Qed.

Lemma digit32_cases (P : Z -> Prop) :
  P 0 -> P 1 -> P 2 -> P 3 -> P 4 -> P 5 -> P 6 -> P 7 -> P 8 -> P 9 ->
  P 10 -> P 11 -> P 12 -> P 13 -> P 14 -> P 15 -> P 16 -> P 17 -> P 18 ->
  P 19 -> P 20 -> P 21 -> P 22 -> P 23 -> P 24 -> P 25 -> P 26 -> P 27 ->
  P 28 -> P 29 -> P 30 -> P 31 ->
  forall digit, 0 <= digit < 32 -> P digit.
Proof.
  intros. 
  assert (digit = 0 \/ digit = 1 \/ digit = 2 \/ digit = 3 \/ digit = 4
          \/ digit = 5 \/ digit = 6 \/ digit = 7 \/ digit = 8 \/ digit = 9
          \/ digit = 10 \/ digit = 11 \/ digit = 12 \/ digit = 13
          \/ digit = 14 \/ digit = 15 \/ digit = 16 \/ digit = 17
          \/ digit = 18 \/ digit = 19 \/ digit = 20 \/ digit = 21
          \/ digit = 22 \/ digit = 23 \/ digit = 24 \/ digit = 25
          \/ digit = 26 \/ digit = 27 \/ digit = 28 \/ digit = 29
          \/ digit = 30 \/ digit = 31) as Hcases by lia.
  repeat (destruct Hcases as [-> | Hcases]; [assumption |]).
  by subst.
Qed.

Lemma digit_value_digit32 digit :
  0 <= digit < 32 -> Person.digit_value (Person.digit32 digit) = digit.
Proof. revert digit. apply digit32_cases; reflexivity. Qed.

Lemma digit32_base32 digit :
  0 <= digit < 32 -> Person.is_base32_char (Person.digit32 digit) = true.
Proof. revert digit. apply digit32_cases; reflexivity. Qed.

Lemma value32_append acc (s1 s2 : string) :
  Person.value32 acc (s1 +:+ s2) = Person.value32 (Person.value32 acc s1) s2.
Proof.
  revert acc. induction s1 as [|c s1 IH]; intros acc; [reflexivity |].
  rewrite append_cons. cbn [Person.value32]. apply IH.
Qed.

(** With enough fuel the digits read back as the number. *)
Lemma value32_digits32 fuel n :
  0 <= n < 32 ^ Z.of_nat fuel ->
  Person.value32 0 (Person.digits32 fuel n) = n.
Proof.
  revert n. induction fuel as [|fuel IH]; intros n Hn.
  - cbn in Hn. cbn. lia.
  - cbn [Person.digits32]. destruct (Z.ltb_spec n 32) as [Hsmall | Hlarge].
    + cbn [Person.value32]. rewrite digit_value_digit32; lia.
    + rewrite value32_append, IH.
      * cbn [Person.value32].
        rewrite digit_value_digit32 by (apply Z.mod_pos_bound; lia).
        pose proof (Z.div_mod n 32). lia.
      * split; [apply Z.div_pos; lia |].
        apply Z.div_lt_upper_bound; [lia |].
        rewrite Nat2Z.inj_succ, Z.pow_succ_r in Hn by lia. lia.
Qed.

Lemma digits32_base32 fuel n :
  0 <= n ->
  Forall (fun c => Person.is_base32_char c = true)
         (list_ascii_of_string (Person.digits32 fuel n)).
Proof.
  revert n. induction fuel as [|fuel IH]; intros n Hn; [constructor |].
  cbn [Person.digits32]. destruct (Z.ltb_spec n 32) as [Hsmall | Hlarge].
  - repeat constructor. apply digit32_base32. lia.
  - rewrite chars_append. apply Forall_app. split.
    + apply IH. apply Z.div_pos; lia.
    + repeat constructor. apply digit32_base32. apply Z.mod_pos_bound. lia.
Qed.

Lemma enough_fuel n : 0 <= n -> n < 32 ^ Z.of_nat (S (Z.to_nat (Z.log2 n))).
Proof.
  intros Hn. rewrite Nat2Z.inj_succ, Z2Nat.id by apply Z.log2_nonneg.
  destruct (Z.eq_dec n 0) as [-> | Hpos]; [by cbn |].
  pose proof (Z.log2_nonneg n) as Hlog.
  assert (n < 2 ^ Z.succ (Z.log2 n)) as Hbelow by (apply Z.log2_spec; lia).
  eapply Z.lt_le_trans; [exact Hbelow |].
  apply Z.pow_le_mono_l. lia.
Qed.

(** The first digit is never a minus sign. *)
Lemma digits32_head fuel n :
  0 <= n ->
  match Person.digits32 fuel n with
  | String c _ => Person.is_base32_char c = true
  | EmptyString => True
  end.
Proof.
  intros Hn. pose proof (digits32_base32 fuel n Hn) as Hall.
  destruct (Person.digits32 fuel n) as [|c rest]; [done |].
  by inversion Hall.
Qed.

Lemma integer_digits32_base32 fuel n :
  0 <= n ->
  Forall (fun c => Person.is_base32_char c = true)
         (list_ascii_of_string (Person.integer_digits32 fuel n)).
Proof.
  revert n. induction fuel as [|fuel IH]; intros n Hn;
    cbn [Person.integer_digits32]; [by apply digits32_base32 |].
  destruct (n <? 2 ^ 53); [by apply digits32_base32 |].
  rewrite chars_append. apply Forall_app. split.
  - apply IH. apply Z.div_pos; lia.
  - by repeat constructor.
Qed.

Lemma integer_digits32_below fuel n :
  n < 2 ^ 53 ->
  Person.integer_digits32 fuel n
  = Person.digits32 (S (Z.to_nat (Z.log2 n))) n.
Proof.
  intros Hn. destruct fuel as [|fuel]; cbn [Person.integer_digits32];
    [reflexivity |].
  by destruct (Z.ltb_spec n (2 ^ 53)) as [_|]; [| lia].
Qed.

(** Up to [2 ^ 53], [toString(32)] loses nothing: the text reads back as
    the number. *)
Lemma parseInt32_toString32 n :
  - 2 ^ 53 <= n <= 2 ^ 53 ->
  Person.parseInt32 (Person.toString32 n) = n.
Proof.
  intros Hn.
  destruct (Z.eq_dec n (2 ^ 53)) as [-> | Hhigh]; [reflexivity |].
  destruct (Z.eq_dec n (- 2 ^ 53)) as [-> | Hlow]; [reflexivity |].
  unfold Person.toString32. destruct (Z.ltb_spec n 0) as [Hneg | Hpos].
  - rewrite integer_digits32_below by lia. cbn [Person.parseInt32].
    change (match "-"%char with
            | Ascii b0 b1 b2 b3 b4 b5 b6 b7 => _ end) with
      (- Person.value32 0 (Person.digits32 (S (Z.to_nat (Z.log2 (- n)))) (- n))).
    rewrite value32_digits32; [lia |]. split; [lia |]. apply enough_fuel. lia.
  - rewrite integer_digits32_below by lia.
    pose proof (digits32_head (S (Z.to_nat (Z.log2 n))) n Hpos) as Hhead.
    pose proof (value32_digits32 (S (Z.to_nat (Z.log2 n))) n
                  (conj Hpos (enough_fuel n Hpos))) as Hvalue.
    destruct (Person.digits32 _ n) as [|c rest]; [exact Hvalue |].
    unfold Person.parseInt32.
    destruct c as [[] [] [] [] [] [] [] []]; try exact Hvalue; discriminate.
Qed.

Lemma toString32_inj n m :
  - 2 ^ 53 <= n <= 2 ^ 53 -> - 2 ^ 53 <= m <= 2 ^ 53 ->
  Person.toString32 n = Person.toString32 m -> n = m.
Proof.
  intros Hn Hm Hsame. rewrite <- (parseInt32_toString32 n Hn), Hsame.
  by apply parseInt32_toString32.
Qed.

Lemma toString32_no_dot n :
  "."%char ∉ list_ascii_of_string (Person.toString32 n).
Proof.
  assert (forall fuel k, 0 <= k ->
            "."%char ∉ list_ascii_of_string (Person.integer_digits32 fuel k))
    as Hdigits.
  { intros fuel k Hk Hin.
    pose proof (integer_digits32_base32 fuel k Hk) as Hall.
    rewrite Forall_forall in Hall. by specialize (Hall _ Hin). }
  unfold Person.toString32. destruct (Z.ltb_spec n 0) as [Hneg | Hpos].
  - cbn [list_ascii_of_string]. rewrite not_elem_of_cons. split; [done |].
    apply Hdigits. lia.
  - by apply Hdigits.
Qed.

(** Two addresses of counters up to [2 ^ 53] are the same only with the
    same counter. *)
Lemma email_inj firstName lastName counter firstName' lastName' counter' :
  - 2 ^ 53 <= counter <= 2 ^ 53 -> - 2 ^ 53 <= counter' <= 2 ^ 53 ->
  Person.email firstName lastName counter
  = Person.email firstName' lastName' counter' ->
  counter = counter'.
Proof.
  unfold Person.email. intros Hcounter Hcounter' Hsame.
  apply (f_equal list_ascii_of_string) in Hsame.
  rewrite !chars_append in Hsame.
  set (domain := list_ascii_of_string "@myloadtest.email") in *.
  change (list_ascii_of_string ".") with ["."%char] in Hsame.
  assert (forall F L C : list ascii,
            F ++ ["."%char] ++ L ++ ["."%char] ++ C ++ domain
            = ((F ++ "."%char :: L) ++ "."%char :: C) ++ domain) as Hshape.
  { intros. by rewrite <- !(assoc_L (++)). }
  rewrite !Hshape in Hsame. apply app_inv_tail in Hsame.
  apply toString32_inj; [done.. |]. apply chars_inj.
  eapply after_last_separator; [exact Hsame | apply toString32_no_dot..].
Qed.

Lemma retryIfNotAlpha_Some results value :
  Person.retryIfNotAlpha results = Some value ->
  Person.test_alphabetic value = true
  /\ exists before after,
       results = before ++ value :: after
       /\ Forall (fun v => Person.test_alphabetic v = false) before.
Proof.
  induction results as [|v results IH]; [discriminate |].
  cbn [Person.retryIfNotAlpha].
  destruct (Person.test_alphabetic v) eqn:Hv.
  - intros [= ->]. split; [exact Hv |]. by exists [], results.
  - intros Hlater. destruct (IH Hlater) as (Hvalue & before & after & -> & Hbefore).
    split; [exact Hvalue |]. exists (v :: before), after. split; [done |].
    by constructor.
Qed.

Lemma retryIfNotAlpha_found results :
  Exists (fun value => Person.test_alphabetic value = true) results ->
  is_Some (Person.retryIfNotAlpha results).
Proof.
  induction 1 as [v results Hv | v results _ IH]; cbn [Person.retryIfNotAlpha].
  - rewrite Hv. eauto.
  - destruct (Person.test_alphabetic v); eauto.
Qed.

(** A request that finds its names: the answer and the row afterwards. *)
Lemma person_get_eq d db firstName lastName :
  Person.retryIfNotAlpha (Person.firstNames d) = Some firstName ->
  Person.retryIfNotAlpha (Person.lastNames d) = Some lastName ->
  let counter := Counter.stored_value "personCount" db + 1 in
  Person.router_get d db =
    Some (res_json 200
            (JObject [("firstname", JString firstName);
                      ("lastname", JString lastName);
                      ("gender", JString (if Person.random_below_half d
                                          then "male" else "female"));
                      ("birthdate",
                       JString (substring 0 10 (Person.birthdate_toISOString d)));
                      ("email",
                       JString (Person.email firstName lastName
                                  (to_double counter)))]),
          <["personCount" := counter]> db).
Proof.
  intros Hfirst Hlast. cbv zeta. unfold Person.router_get.
  rewrite Hfirst, Hlast.
  unfold Counter.insert_or_replace, Counter.select_value, Counter.stored_value.
  cbn [String.eqb Ascii.eqb]. rewrite lookup_insert_eq.
  by destruct (db !! "personCount").
Qed.

Lemma person_get_Some d db response db' :
  Person.router_get d db = Some (response, db') ->
  exists firstName lastName,
    Person.retryIfNotAlpha (Person.firstNames d) = Some firstName
    /\ Person.retryIfNotAlpha (Person.lastNames d) = Some lastName.
Proof.
  unfold Person.router_get.
  destruct (Person.retryIfNotAlpha (Person.firstNames d)) as [firstName|];
    [| discriminate].
  destruct (Person.retryIfNotAlpha (Person.lastNames d)) as [lastName|];
    [| discriminate].
  eauto.
Qed.

(** The address of the request at index [i] carries the counter [i + 1]
    above the one stored before the first request, as a double. *)
Lemma person_serve_emails requests db responses db' :
  Person.serve requests db = Some (responses, db') ->
  length responses = length requests
  /\ Counter.stored_value "personCount" db'
     = Counter.stored_value "personCount" db + Z.of_nat (length requests)
  /\ forall i response,
       responses !! i = Some response ->
       exists firstName lastName,
         Person.field "email" response
         = Some (JString (Person.email firstName lastName
                            (to_double
                               (Counter.stored_value "personCount" db + 1
                                + Z.of_nat i)))).
Proof.
  revert db responses db'.
  induction requests as [|d requests IH]; intros db responses db'.
  - intros [= <- <-]. split; [done |]. split; [cbn; lia |]. by intros i r.
  - cbn [Person.serve].
    destruct (Person.router_get d db) as [[response db1]|] eqn:Hget;
      [| discriminate].
    destruct (Person.serve requests db1) as [[responses' db2]|] eqn:Hserve;
      [| discriminate].
    intros [= <- <-].
    destruct (person_get_Some _ _ _ _ Hget) as (firstName & lastName & Hf & Hl).
    rewrite (person_get_eq _ db _ _ Hf Hl) in Hget. cbv zeta in Hget.
    injection Hget as <- <-.
    destruct (IH _ _ _ Hserve) as (Hlength & Hstored & Hemails).
    rewrite stored_value_insert in Hstored, Hemails.
    split; [cbn; by rewrite Hlength |]. split; [cbn [length]; lia |].
    intros [|i] r; cbn [lookup list_lookup].
    + intros [= <-]. exists firstName, lastName. cbn.
      do 4 f_equal. lia.
    + intros Hr. destruct (Hemails i r Hr) as (f & l & ->).
      exists f, l. do 4 f_equal. lia.
Qed.

Lemma person_serve_total requests db :
  Forall Person.names_found requests -> is_Some (Person.serve requests db).
Proof.
  intros Hfound. revert db.
  induction Hfound as [|d requests [Hfirst Hlast] _ IH]; intros db; [by eexists |].
  destruct (retryIfNotAlpha_found _ Hfirst) as [firstName Hf].
  destruct (retryIfNotAlpha_found _ Hlast) as [lastName Hl].
  cbn [Person.serve]. rewrite (person_get_eq _ db _ _ Hf Hl). cbv zeta.
  destruct (IH (<["personCount" :=
                   Counter.stored_value "personCount" db + 1]> db))
    as [[responses db'] ->].
  by eexists.
Qed.

(** X19. The email addresses that [GET /person] hands out are unique as
    long as the count stays within [2 ^ 53].  Requests served one after
    the other, each finding among the names drawn for it a first and a
    last name that pass the test, are all answered, each answer carries an
    email address, and the count stored afterwards is the one before plus
    the number of requests; when the count before is at least [- 2 ^ 53]
    and the count afterwards at most [2 ^ 53], no two of the addresses are
    the same, whatever names were drawn. *)
Theorem person_emails_are_unique requests db :
  Forall Person.names_found requests ->
  exists responses db',
    Person.serve requests db = Some (responses, db')
    /\ length responses = length requests
    /\ Forall (fun response =>
                 status_of response = Some 200
                 /\ exists address,
                      Person.field "email" response = Some (JString address))
              responses
    /\ Counter.stored_value "personCount" db'
       = Counter.stored_value "personCount" db + Z.of_nat (length requests)
    /\ (- 2 ^ 53 <= Counter.stored_value "personCount" db ->
        Counter.stored_value "personCount" db' <= 2 ^ 53 ->
        NoDup (Person.field "email" <$> responses)).
Proof.
  intros Hfound.
  destruct (person_serve_total requests db Hfound) as [[responses db'] Hserve].
  exists responses, db'. split; [exact Hserve |].
  destruct (person_serve_emails _ _ _ _ Hserve) as (Hlength & Hstored & Hemails).
  split; [exact Hlength |]. split; [| split; [exact Hstored |]].
  - clear Hlength Hstored Hemails. revert db responses db' Hserve.
    induction Hfound as [|d requests [Hfirst Hlast] _ IH];
      intros db responses db'.
    + intros [= <- <-]. constructor.
    + destruct (retryIfNotAlpha_found _ Hfirst) as [firstName Hf].
      destruct (retryIfNotAlpha_found _ Hlast) as [lastName Hl].
      cbn [Person.serve]. rewrite (person_get_eq _ db _ _ Hf Hl). cbv zeta.
      destruct (Person.serve requests _) as [[responses' db2]|] eqn:Hserve;
        [| discriminate].
      intros [= <- <-]. constructor; [| by eapply IH].
      split; [reflexivity |]. by eexists.
  - intros Hlow Hhigh. rewrite Hstored in Hhigh.
    apply NoDup_alt. intros i j address.
    rewrite !list_lookup_fmap.
    destruct (responses !! i) as [ri|] eqn:Hi; [| discriminate].
    destruct (responses !! j) as [rj|] eqn:Hj; [| discriminate].
    destruct (Hemails i ri Hi) as (fi & li & Hri).
    destruct (Hemails j rj Hj) as (fj & lj & Hrj).
    apply lookup_lt_Some in Hi, Hj. rewrite Hlength in Hi, Hj.
    cbn. rewrite Hri, Hrj. intros [= <-] [= Hsame].
    rewrite !to_double_exact in Hsame by lia.
    apply email_inj in Hsame; lia.
Qed.

Lemma lower_char_email c :
  Person.is_alphabetic_char c = true ->
  Person.is_email_char (Person.lower_char c) = true.
Proof.
  destruct c as [[] [] [] [] [] [] [] []]; (discriminate || reflexivity).
Qed.

Lemma base32_char_email c :
  Person.is_base32_char c = true -> Person.is_email_char c = true.
Proof.
  destruct c as [[] [] [] [] [] [] [] []]; (discriminate || reflexivity).
Qed.

Lemma toLowerCase_email (name : string) :
  Person.test_alphabetic name = true ->
  Forall (fun c => Person.is_email_char c = true)
         (list_ascii_of_string (Person.toLowerCase name)).
Proof.
  intros Hname.
  assert (Person.all_alphabetic name = true) as Hall by by destruct name.
  clear Hname. induction name as [|c name IH]; [constructor |].
  cbn [Person.all_alphabetic] in Hall. apply andb_true_iff in Hall as [Hc Hall].
  cbn [Person.toLowerCase list_ascii_of_string].
  constructor; [by apply lower_char_email | by apply IH].
Qed.

Lemma toString32_email n :
  0 <= n ->
  Forall (fun c => Person.is_email_char c = true)
         (list_ascii_of_string (Person.toString32 n)).
Proof.
  intros Hn. unfold Person.toString32.
  destruct (Z.ltb_spec n 0) as [Hneg | _]; [lia |].
  eapply Forall_impl; [by apply integer_digits32_base32 |].
  apply base32_char_email.
Qed.

(** X20. What [GET /person] answers.  The first and the last name of the
    answer pass the test [/^[a-zA-Z]+$/], so that a name drawn with an
    apostrophe ([D'angelo], [O'Hara]) is never answered: each is the first
    of the names drawn for it that passes, every name drawn before it
    having failed.  The gender is [male] or [female].  With a count of at
    least 0 stored, the email address is made of lowercase letters,
    digits, dots and the at sign only, and the count is one more
    afterwards. *)
Theorem person_names_are_alphabetic d db response db' :
  Person.router_get d db = Some (response, db') ->
  0 <= Counter.stored_value "personCount" db ->
  exists firstName lastName address,
    status_of response = Some 200
    /\ Person.field "firstname" response = Some (JString firstName)
    /\ Person.field "lastname" response = Some (JString lastName)
    /\ Person.field "email" response = Some (JString address)
    /\ (Person.field "gender" response = Some (JString "male")
        \/ Person.field "gender" response = Some (JString "female"))
    /\ Person.test_alphabetic firstName = true
    /\ Person.test_alphabetic lastName = true
    /\ (exists before after,
          Person.firstNames d = before ++ firstName :: after
          /\ Forall (fun v => Person.test_alphabetic v = false) before)
    /\ (exists before after,
          Person.lastNames d = before ++ lastName :: after
          /\ Forall (fun v => Person.test_alphabetic v = false) before)
    /\ Forall (fun c => Person.is_email_char c = true)
              (list_ascii_of_string address)
    /\ db' = <["personCount" := Counter.stored_value "personCount" db + 1]> db.
Proof.
  intros Hget Hstored.
  destruct (person_get_Some _ _ _ _ Hget) as (firstName & lastName & Hf & Hl).
  rewrite (person_get_eq _ db _ _ Hf Hl) in Hget. cbv zeta in Hget.
  injection Hget as <- <-.
  destruct (retryIfNotAlpha_Some _ _ Hf) as [Hfirst Hfirsts].
  destruct (retryIfNotAlpha_Some _ _ Hl) as [Hlast Hlasts].
  exists firstName, lastName,
    (Person.email firstName lastName
       (to_double (Counter.stored_value "personCount" db + 1))).
  split; [reflexivity |]. split; [reflexivity |]. split; [reflexivity |].
  split; [reflexivity |].
  split; [destruct (Person.random_below_half d); [by left | by right] |].
  split; [exact Hfirst |]. split; [exact Hlast |].
  split; [exact Hfirsts |]. split; [exact Hlasts |].
  split; [| reflexivity].
  unfold Person.email. rewrite !chars_append. repeat apply Forall_app_2.
  - by apply toLowerCase_email.
  - by repeat constructor.
  - by apply toLowerCase_email.
  - by repeat constructor.
  - apply toString32_email, to_double_nonneg. lia.
  - by repeat constructor.
Qed.

End PersonProperties.

(** ** The further properties on runs *)

Section FurtherRuns.
#[local] Existing Instance JsonText.codec.
#[local] Existing Instance notEmpty_as_commented.
#[local] Existing Instance sqlite_keywords.

Lemma export_shows_what_dequeue_takes_witness :
  let payloads := [JString "VIN1"; JString "VIN2"; JString "VIN3"] in
  Queue.parse_items (Queue.order_by_position vin_table) = Some payloads
  /\ Queue.router_get_export "vin" vin_database
     = (res_json 200 (JArray payloads), vin_database)
  /\ (Queue.router_get "vin" (Some 2) vin_database).1
     = res_json 200 (JArray [JString "VIN1"; JString "VIN2"]).
Proof.
  intros payloads.
  assert (vin_database !! "vin" = Some vin_table) as Hlookup by reflexivity.
  assert (Queue.parse_items (Queue.order_by_position vin_table)
          = Some payloads) as Hparse by reflexivity.
  assert (sql_identifier "vin" = true) as Hidentifier by reflexivity.
  destruct (export_shows_what_dequeue_takes "vin" vin_database vin_table
              payloads eq_refl Hidentifier Hlookup Hparse)
    as (Hexport & _ & Hget & _).
  split; [exact Hparse |]. split; [exact Hexport |].
  apply (Hget (Some 2)). cbn. lia.
Defined.

Lemma dequeues_compose_witness :
  let first := Queue.router_get "vin" (Some 1) vin_database in
  let second := Queue.router_get "vin" (Some 1) first.2 in
  let both := Queue.router_get "vin" (Some 2) vin_database in
  first.1 = res_json 200 (JArray [JString "VIN1"])
  /\ second.1 = res_json 200 (JArray [JString "VIN2"])
  /\ both.1 = res_json 200 (JArray [JString "VIN1"; JString "VIN2"])
  /\ second.2 = both.2.
Proof.
  assert (vin_database !! "vin" = Some vin_table) as Hlookup by reflexivity.
  assert (Queue.parse_items
            (take (Z.to_nat (1 + 1)) (Queue.order_by_position vin_table))
          = Some [JString "VIN1"; JString "VIN2"]) as Hparse by reflexivity.
  assert (1 <= 1) as Hlimit by lia.
  assert (1 + 1 < 2 ^ 63) as Hsum by reflexivity.
  assert (sql_identifier "vin" = true) as Hidentifier by reflexivity.
  exact (dequeues_compose "vin" 1 1 vin_database vin_table
           [JString "VIN1"; JString "VIN2"] eq_refl Hidentifier Hlookup Hlimit
           Hlimit Hsum Hparse).
Defined.

Lemma queue_routes_touch_one_queue_witness :
  (Queue.router_delete "orders" vin_database).2 !! "vin" = Some vin_table
  /\ (Queue.router_get "orders" None vin_database).2 !! "vin" = Some vin_table
  /\ (Queue.router_post "orders" (JArray [JNumber 1]) vin_database).2 !! "vin"
     = Some vin_table.
Proof.
  assert ("vin" <> "orders") as Hother by discriminate.
  assert (fold_case "vin" <> fold_case "orders") as Hfold by discriminate.
  destruct (queue_routes_touch_one_queue "orders" "vin" vin_database Hother)
    as (Hpost & Hget & Hdelete & _).
  split; [exact Hdelete |]. split; [exact (Hget None) |].
  exact (Hpost (JArray [JNumber 1]) Hfold).
Defined.

Lemma queue_routes_are_first_in_first_out_witness :
  let requests :=
    [Queue.POST "orders" (JArray [JString "a"; JNumber 2]);
     Queue.GET "orders" None;
     Queue.POST "orders" (JArray [JBool true]);
     Queue.GET_depth "orders";
     Queue.GET "orders" (Some 5);
     Queue.GET_export "orders";
     Queue.DELETE "orders";
     Queue.GET "orders" None;
     Queue.GET_root] in
  Forall Fifo.accepted requests
  /\ Fifo.one_spelling (omap Fifo.name_of requests
                        ++ (map_to_list (∅ : gmap string (gmap Z string))).*1)
  /\ exists s',
       Fifo.serve requests ∅ = Some ((serve Queue.handle requests ∅).1, s')
       /\ Fifo.represents (serve Queue.handle requests ∅).2 s'.
Proof.
  intros requests.
  assert (forall a, a <> [] -> Forall serializable a ->
            Fifo.accepted (Queue.POST "orders" (JArray a))) as Hpost.
  { intros a Hne Ha. split; [reflexivity |]. split; [reflexivity |].
    split; [by destruct a |]. by exists a. }
  assert (Forall Fifo.accepted requests) as Haccepted.
  { repeat apply Forall_cons_2; try apply Forall_nil_2;
      try (apply Hpost; [discriminate |];
           repeat constructor; vm_compute; discriminate);
      try (split; reflexivity);
      try (split; [reflexivity | split; [reflexivity | cbn; lia]]). }
  assert (Fifo.one_spelling
            (omap Fifo.name_of requests
             ++ (map_to_list (∅ : gmap string (gmap Z string))).*1))
    as Hnames.
  { intros a b Ha Hb _. rewrite map_to_list_empty, app_nil_r in Ha, Hb.
    assert (forall name, name ∈ omap Fifo.name_of requests -> name = "orders")
      as Honly.
    { intros name Hname. cbn in Hname.
      repeat (apply elem_of_cons in Hname as [-> | Hname]; [done |]).
      by apply elem_of_nil in Hname. }
    by rewrite (Honly a Ha), (Honly b Hb). }
  split; [exact Haccepted |]. split; [exact Hnames |].
  destruct (queue_routes_are_first_in_first_out requests ∅ ∅ Haccepted
              Hnames represents_empty) as (s' & Hserve & Hrep & _).
  exists s'. split; [exact Hserve | exact Hrep].
Defined.

Lemma interleaved_incrementAndGet_counts_up_witness :
  let requests :=
    [Counter.GET "orderId"; Counter.GET "invoice"; Counter.POST "invoice" 500;
     Counter.GET "orderId"; Counter.GET_root; Counter.DELETE "invoice";
     Counter.GET "orderId"] in
  answers_to (Counter.GET "orderId") requests
    (serve Counter.handle requests ∅).1
  = [res_json 200 (JNumber 1); res_json 200 (JNumber 2);
     res_json 200 (JNumber 3)].
Proof.
  intros requests.
  assert (Forall (fun request =>
                    (forall body, request <> Counter.POST "orderId" body)
                    /\ request <> Counter.DELETE "orderId") requests)
    as Hrequests by (repeat constructor; discriminate).
  destruct (interleaved_incrementAndGet_counts_up "orderId" requests ∅
              eq_refl Hrequests) as (_ & _ & Hanswers).
  apply Hanswers; vm_compute; discriminate.
Defined.

Lemma map_routes_are_a_dictionary_witness :
  let v := JObject [("firstName", JString "John"); ("registered", JBool true)] in
  let requests :=
    [Maps.POST "user1" (JNumber 99); Maps.GET "user1"; Maps.POST "user1" v;
     Maps.GET "user1"; Maps.GET_root; Maps.DELETE "user1"; Maps.GET "user1"] in
  Forall Dict.accepted requests
  /\ (serve Maps.handle requests ∅).1 = (serve Dict.handle requests ∅).1.
Proof.
  intros v requests.
  assert (forall value, notEmpty value = true -> serializable value ->
            Dict.accepted (Maps.POST "user1" value)) as Hpost.
  { intros value Hbody Hvalue. by split. }
  assert (Forall Dict.accepted requests) as Haccepted.
  { repeat apply Forall_cons_2; try apply Forall_nil_2;
      try (apply Hpost; [reflexivity |];
           split; [vm_compute; discriminate | reflexivity]);
      try reflexivity. }
  split; [exact Haccepted |].
  exact (proj1 (map_routes_are_a_dictionary requests ∅ ∅ Haccepted
                  dict_represents_empty)).
Defined.

Lemma person_emails_are_unique_witness :
  let d1 := {| Person.random_below_half := true;
               Person.firstNames := ["D'angelo"; "John"];
               Person.lastNames := ["Smith"];
               Person.birthdate_toISOString := "1990-05-17T00:00:00.000Z" |} in
  let d2 := {| Person.random_below_half := false;
               Person.firstNames := ["John"];
               Person.lastNames := ["O'Hara"; "Smith"];
               Person.birthdate_toISOString := "1978-11-02T00:00:00.000Z" |} in
  Forall Person.names_found [d1; d2]
  /\ exists responses db',
       Person.serve [d1; d2] ∅ = Some (responses, db')
       /\ NoDup (Person.field "email" <$> responses).
Proof.
  intros d1 d2.
  assert (Forall Person.names_found [d1; d2]) as Hfound.
  { apply Forall_cons_2; [split | apply Forall_cons_2; [split | constructor]].
    - apply Exists_cons_tl, Exists_cons_hd. reflexivity.
    - apply Exists_cons_hd. reflexivity.
    - apply Exists_cons_hd. reflexivity.
    - apply Exists_cons_tl, Exists_cons_hd. reflexivity. }
  split; [exact Hfound |].
  destruct (person_emails_are_unique [d1; d2] ∅ Hfound)
    as (responses & db' & Hserve & _ & _ & Hstored & Hunique).
  exists responses, db'. split; [exact Hserve |].
  apply Hunique; [vm_compute; discriminate |].
  rewrite Hstored. vm_compute. discriminate.
Defined.

(** From [2 ^ 53] on the addresses do repeat: with 9007199254740991
    stored, two requests that draw the same names are both answered
    [john.smith.80000000000@myloadtest.email]. *)
Lemma person_emails_repeat_above_2_53 :
  let d := {| Person.random_below_half := true;
              Person.firstNames := ["John"];
              Person.lastNames := ["Smith"];
              Person.birthdate_toISOString := "1990-05-17T00:00:00.000Z" |} in
  let db : gmap string Z := <["personCount" := 9007199254740991]> ∅ in
  exists first second db',
    Person.serve [d; d] db = Some ([first; second], db')
    /\ Person.field "email" first
       = Some (JString "john.smith.80000000000@myloadtest.email")
    /\ Person.field "email" second = Person.field "email" first
    /\ Counter.stored_value "personCount" db' = 9007199254740993.
Proof.
  cbv zeta. eexists _, _, _. split; [vm_compute; reflexivity |].
  repeat split; vm_compute; reflexivity.
Qed.

Lemma person_names_are_alphabetic_witness :
  let d := {| Person.random_below_half := true;
              Person.firstNames := ["D'angelo"; "John"];
              Person.lastNames := ["O'Hara"; "Smith"];
              Person.birthdate_toISOString := "1990-05-17T00:00:00.000Z" |} in
  let db : gmap string Z := <["personCount" := 1027465]> ∅ in
  exists response db',
    Person.router_get d db = Some (response, db')
    /\ Person.field "firstname" response = Some (JString "John")
    /\ Person.field "lastname" response = Some (JString "Smith")
    /\ Person.field "birthdate" response = Some (JString "1990-05-17")
    /\ Person.field "email" response
       = Some (JString "john.smith.vbca@myloadtest.email")
    /\ exists address,
         Person.field "email" response = Some (JString address)
         /\ Forall (fun c => Person.is_email_char c = true)
                   (list_ascii_of_string address).
Proof.
  intros d db.
  pose proof (person_get_eq d db "John" "Smith" eq_refl eq_refl) as Hget.
  cbv zeta in Hget.
  assert (0 <= Counter.stored_value "personCount" db) as Hstored
    by (vm_compute; discriminate).
  destruct (person_names_are_alphabetic d db _ _ Hget Hstored)
    as (firstName & lastName & address & _ & _ & _ & Haddress & _ & _ & _ & _
        & _ & Hchars & _).
  eexists _, _. split; [exact Hget |].
  split; [reflexivity |]. split; [reflexivity |]. split; [reflexivity |].
  split; [vm_compute; reflexivity |].
  exists address. split; [exact Haddress | exact Hchars].
Defined.

End FurtherRuns.
